(** * CinemaAbyss: strangler-fig proxy and events service

    A shallow embedding of the two Go programs of the repository:

    - the strangler-fig proxy ([Module Proxy]): configuration loading and
      the routing decision between the monolith, the movies service and the
      events service;
    - the events service ([Module Events]): the HTTP handlers that decode a
      JSON event and publish it to Kafka, the health handler, the lazily
      built Kafka writer and the per-topic consumer loop.

    Go's [int] is a 64-bit integer and is modelled by [Z] with its range
    written out where the code depends on it; strings are [string]; the
    process environment is a finite map; effects (the logger, the shared
    random source, the broker) are threaded explicitly. *)

From stdpp Require Import gmap strings list.
From Stdlib Require Import ZArith Ascii String DecimalString DecimalPos.

Local Open Scope string_scope.
Local Open Scope Z_scope.

(** ** Pieces of the Go standard library used by both programs *)

Module Go.

(** [strings.HasPrefix s prefix]. *)
Definition strings_HasPrefix (s pre : string) : bool := String.prefix pre s.

(** The process environment, as read by [os.LookupEnv]. *)
Definition os_LookupEnv (env : gmap string string) (key : string)
  : option string := env !! key.

(** Range of Go's [int] on the 64-bit platforms the services run on. *)
Definition int_min : Z := - 2 ^ 63.
Definition int_max : Z := 2 ^ 63 - 1.
Definition in_int_range (z : Z) : bool := (int_min <=? z) && (z <=? int_max).

(** Value of a decimal digit, [None] for any other byte. *)
Definition digit_value (c : ascii) : option Z :=
  let n := Z.of_N (N_of_ascii c) in
  if (48 <=? n) && (n <=? 57) then Some (n - 48) else None.

(** Base-10 accumulation over the bytes of [s], most significant first. *)
Fixpoint parse_digits (acc : Z) (s : string) : option Z :=
  match s with
  | EmptyString => Some acc
  | String c rest =>
      match digit_value c with
      | Some d => parse_digits (acc * 10 + d) rest
      | None => None
      end
  end.

(** An unsigned decimal: at least one digit, digits only. *)
Definition parse_unsigned (s : string) : option Z :=
  match s with
  | EmptyString => None
  | _ => parse_digits 0 s
  end.

(** [strconv.ParseInt s 10 64]: an optional sign, then decimal digits; a
    syntax error or a value that does not fit in 64 bits is an error
    ([None]). *)
Definition strconv_ParseInt (s : string) : option Z :=
  let signed :=
    match s with
    | String "-"%char rest => Z.opp <$> parse_unsigned rest
    | String "+"%char rest => parse_unsigned rest
    | _ => parse_unsigned s
    end in
  match signed with
  | Some n => if in_int_range n then Some n else None
  | None => None
  end.

(** [strconv.Atoi] is [ParseInt] in base 10 at the width of [int]. *)
Definition strconv_Atoi (s : string) : option Z := strconv_ParseInt s.

(** [strconv.Itoa]. *)
Definition strconv_Itoa (n : Z) : string :=
  NilZero.string_of_int (Z.to_int n).

(** [strings.Split s sep] for a one-byte separator: the pieces between
    the separators, [cur] being the piece read so far (in reverse). *)
Fixpoint split_from (sep : ascii) (cur : string) (s : string)
  : list string :=
  match s with
  | EmptyString => [String.rev cur]
  | String c rest =>
      if Ascii.eqb c sep then String.rev cur :: split_from sep "" rest
      else split_from sep (String c cur) rest
  end.

Definition strings_Split (s : string) (sep : ascii) : list string :=
  split_from sep "" s.

(** [strings.Join elems sep]. *)
Definition strings_Join (elems : list string) (sep : string) : string :=
  String.concat sep elems.

(** An argument of a [log.Printf] call. *)
Inductive logarg (E J : Type) : Type :=
| ArgString (s : string)
| ArgInt (n : Z)
| ArgError (e : E)
| ArgBytes (doc : J).
Arguments ArgString {E J} s.
Arguments ArgInt {E J} n.
Arguments ArgError {E J} e.
Arguments ArgBytes {E J} doc.

End Go.

(** ** The strangler-fig proxy *)

Module Proxy.
Import Go.

(** The shared source behind [rand.Intn]: the values the next calls will
    return, and how many calls have been made so far. *)
Record RandSource := {
  rand_output : nat -> Z;
  rand_calls : nat
}.

(** The value the next call of [rand.Intn] returns. *)
Definition next_draw (r : RandSource) : Z := rand_output r (rand_calls r).

(** [rand.Intn n]: returns the next value and advances the source. The
    library promises a result in [[0, n)]; theorems that need the promise
    take it as a hypothesis on [next_draw]. *)
Definition rand_Intn (n : Z) (r : RandSource) : Z * RandSource :=
  (next_draw r,
   {| rand_output := rand_output r; rand_calls := S (rand_calls r) |}).

(** Outcome of start-up code: it either carries on with a value, or
    [log.Fatalf] ends the process. Either way log lines were written. *)
Inductive startup (A : Type) : Type :=
| Started (a : A) (logs : list string)
| Aborted (logs : list string).
Arguments Started {A} a logs.
Arguments Aborted {A} logs.

Definition startup_bind {A B} (m : startup A) (k : A -> startup B)
  : startup B :=
  match m with
  | Started a l1 =>
      match k a with
      | Started b l2 => Started b (l1 ++ l2)
      | Aborted l2 => Aborted (l1 ++ l2)
      end
  | Aborted l1 => Aborted l1
  end.

Notation "'let*' x := m 'in' k" := (startup_bind m (fun x => k))
  (at level 10, x name, m at level 100, k at level 200).

(** getEnv *)
Definition getEnv (env : gmap string string) (key fallback : string)
  : string :=
  match os_LookupEnv env key with
  | Some value => value
  | None => fallback
  end.

(** parseMigrationPercent: the value returned and the lines logged. *)
Definition parseMigrationPercent (percentStr : string) : Z * list string :=
  match strconv_Atoi percentStr with
  | Some percent =>
      if (percent <? 0) || (percent >? 100)
      then (0, ["Некорректное значение MOVIES_MIGRATION_PERCENT '"
                  ++ percentStr ++ "', используется 0"])
      else (percent, [])
  | None =>
      (0, ["Некорректное значение MOVIES_MIGRATION_PERCENT '"
             ++ percentStr ++ "', используется 0"])
  end.

Section WithURL.

(** [*url.URL] and [url.Parse] belong to net/url; the parser returns the
    URL or the text of its error. *)
Variable URL : Type.
Variable url_Parse : string -> URL + string.

Record ProxyConfig := {
  Port : string;
  MonolithURL : URL;
  MoviesServiceURL : URL;
  EventsServiceURL : URL;
  GradualMigration : bool;
  MoviesMigrationPercent : Z
}.

(** parseURL *)
Definition parseURL (rawURL envVarName : string) : startup URL :=
  match url_Parse rawURL with
  | inl parsedURL => Started parsedURL []
  | inr err => Aborted ["Ошибка парсинга " ++ envVarName ++ ": " ++ err]
  end.

(** loadConfig. The generator built by [rand.New] in its first line is
    dropped at once and leaves the shared source untouched. *)
Definition loadConfig (env : gmap string string) : startup ProxyConfig :=
  let port := getEnv env "PORT" "8000" in
  let monolithURL := getEnv env "MONOLITH_URL" "http://localhost:8080" in
  let moviesServiceURL :=
    getEnv env "MOVIES_SERVICE_URL" "http://localhost:8081" in
  let eventsServiceURL :=
    getEnv env "EVENTS_SERVICE_URL" "http://localhost:8082" in
  let gradualMigration :=
    String.eqb (getEnv env "GRADUAL_MIGRATION" "false") "true" in
  let migrationPercentStr := getEnv env "MOVIES_MIGRATION_PERCENT" "0" in
  let* monoURL := parseURL monolithURL "MONOLITH_URL" in
  let* movURL := parseURL moviesServiceURL "MOVIES_SERVICE_URL" in
  let* evtURL := parseURL eventsServiceURL "EVENTS_SERVICE_URL" in
  let '(migrationPercent, logs) :=
    parseMigrationPercent migrationPercentStr in
  Started {| Port := port;
             MonolithURL := monoURL;
             MoviesServiceURL := movURL;
             EventsServiceURL := evtURL;
             GradualMigration := gradualMigration;
             MoviesMigrationPercent := migrationPercent |} logs.

(** [httputil.NewSingleHostReverseProxy target]: all that matters of the
    proxy for routing is the host it forwards to. *)
Record ReverseProxy := { proxy_target : URL }.

(** createReverseProxy *)
Definition createReverseProxy (targetURL : URL) : ReverseProxy :=
  {| proxy_target := targetURL |}.

(** shouldRouteToMovies *)
Definition shouldRouteToMovies (config : ProxyConfig) (r : RandSource)
  : bool * RandSource :=
  if negb (GradualMigration config) then (false, r)
  else
    let '(randomValue, r') := rand_Intn 100 r in
    (randomValue <? MoviesMigrationPercent config, r').

(** routeRequest *)
Definition routeRequest (config : ProxyConfig) (path : string)
    (r : RandSource) : (ReverseProxy * string) * RandSource :=
  if strings_HasPrefix path "/api/movies" then
    let '(toMovies, r') := shouldRouteToMovies config r in
    if toMovies
    then ((createReverseProxy (MoviesServiceURL config),
           "movies-service"), r')
    else ((createReverseProxy (MonolithURL config), "monolith"), r')
  else if strings_HasPrefix path "/api/events" then
    ((createReverseProxy (EventsServiceURL config), "events-service"), r)
  else
    ((createReverseProxy (MonolithURL config), "monolith"), r).

End WithURL.

Arguments Port {URL} _.
Arguments MonolithURL {URL} _.
Arguments MoviesServiceURL {URL} _.
Arguments EventsServiceURL {URL} _.
Arguments GradualMigration {URL} _.
Arguments MoviesMigrationPercent {URL} _.
Arguments parseURL {URL} url_Parse rawURL envVarName.
Arguments loadConfig {URL} url_Parse env.
Arguments proxy_target {URL} _.
Arguments createReverseProxy {URL} targetURL.
Arguments shouldRouteToMovies {URL} config r.
Arguments routeRequest {URL} config path r.

(** Concrete inputs for examples: a gateway whose three upstreams are
    written as plain addresses, and a random source that keeps returning
    the same value. *)
Definition sample_config (gradual : bool) (percent : Z) : ProxyConfig string :=
  {| Port := "8000";
     MonolithURL := "http://localhost:8080";
     MoviesServiceURL := "http://localhost:8081";
     EventsServiceURL := "http://localhost:8082";
     GradualMigration := gradual;
     MoviesMigrationPercent := percent |}.

Definition sample_source (draw : Z) : RandSource :=
  {| rand_output := fun _ => draw; rand_calls := 0 |}.

(** *** The handlers of the gateway *)

Section Gateway.
Variable URL : Type.

(** What the gateway reads of an inbound request, and the rest of it,
    which is passed on untouched. *)
Record Request := {
  Method : string;
  URL_Path : string;
  Payload : string
}.

(** What a handler leaves in the response: an answer of its own, or the
    answer of the upstream a reverse proxy was asked to serve the request
    from ([proxy.ServeHTTP]). *)
Inductive Answer : Type :=
| Local (status : Z) (contentType : string) (body : string)
| Relayed (proxy : ReverseProxy URL) (r : Request).

(** The state of the gateway process: the shared random source, what
    [time.Now().Format(time.RFC3339)] reads, and the lines logged. *)
Record Gateway := {
  source : RandSource;
  now_RFC3339 : string;
  logged : list string
}.

Definition gateway_log (line : string) (g : Gateway) : Gateway :=
  {| source := source g;
     now_RFC3339 := now_RFC3339 g;
     logged := logged g ++ [line] |}.

Definition Handler : Type := Request -> Gateway -> Answer * Gateway.

(** mainHandler *)
Definition mainHandler (config : ProxyConfig URL) : Handler := fun r g =>
  let g1 :=
    gateway_log ("Входящий запрос: " ++ Method r ++ " " ++ URL_Path r) g in
  let '((proxy, targetService), source') :=
    routeRequest config (URL_Path r) (source g1) in
  let g2 := gateway_log ("Маршрутизация к " ++ targetService) g1 in
  (Relayed proxy r,
   {| source := source';
      now_RFC3339 := now_RFC3339 g2;
      logged := logged g2 |}).

(** A string between double quotes. *)
Definition quoted (s : string) : string :=
  String "034"%char (s ++ String "034"%char "").

(** healthHandler: the body is put together from the three quoted
    fields by hand. *)
Definition healthHandler : Handler := fun r g =>
  let jsonResponse :=
    "{" ++ quoted "status" ++ ":" ++ quoted "healthy" ++ ","
        ++ quoted "service" ++ ":" ++ quoted "strangler-fig-proxy" ++ ","
        ++ quoted "datetime" ++ ":" ++ quoted (now_RFC3339 g) ++ "}" in
  (Local 200 "application/json" jsonResponse, g).

(** The patterns [main] registers: the subtree pattern ["/"] and the two
    exact paths of the health check. *)
Definition gateway_routes (config : ProxyConfig URL) : gmap string Handler :=
  <["/api/health" := healthHandler]>
    (<["/health" := healthHandler]>
       (<["/" := mainHandler config]> ∅)).

(** The dispatch of the server: the pattern equal to the path when there
    is one, else the subtree pattern ["/"], under which every path lies. *)
Definition gateway_ServeHTTP (config : ProxyConfig URL) : Handler :=
  fun r g =>
    match (gateway_routes config !! URL_Path r : option Handler) with
    | Some handler => handler r g
    | None =>
        match (gateway_routes config !! "/" : option Handler) with
        | Some handler => handler r g
        | None =>
            (Local 404 "text/plain; charset=utf-8" "404 page not found", g)
        end
    end.

(** Requests served one after the other. *)
Fixpoint serve_all (config : ProxyConfig URL) (rs : list Request)
    (g : Gateway) : list Answer * Gateway :=
  match rs with
  | [] => ([], g)
  | r :: rest =>
      let '(a, g1) := gateway_ServeHTTP config r g in
      let '(answers, g2) := serve_all config rest g1 in
      (a :: answers, g2)
  end.

End Gateway.

Arguments Local {URL} status contentType body.
Arguments Relayed {URL} proxy r.
Arguments mainHandler {URL} config r g.
Arguments healthHandler {URL} r g.
Arguments gateway_routes {URL} config.
Arguments gateway_ServeHTTP {URL} config r g.
Arguments serve_all {URL} config rs g.

(** The requests of a list whose path lies in the movies area. *)
Definition movies_requests (rs : list Request) : nat :=
  List.length
    (List.filter (fun r => strings_HasPrefix (URL_Path r) "/api/movies") rs).

End Proxy.

(** ** The events service *)

Module Events.
Import Go.

(** *** JSON documents *)

#[local] Unset Elimination Schemes.

(** A JSON value as the decoder sees it; a number keeps its literal text,
    which is what decides whether it fits a Go [int]. *)
Inductive json : Type :=
| JNull
| JBool (b : bool)
| JNumber (literal : string)
| JString (s : string)
| JArray (items : list json)
| JObject (members : list (string * json)).

#[local] Set Elimination Schemes.

(** What [json.NewDecoder body] finds in a request body: the first JSON
    value of the stream, or the error ([io.EOF], a syntax error) met
    before one was complete. *)
Inductive BodyStream : Type :=
| BadStream (text : string)
| FirstValue (doc : json).

(** The errors the service handles: those of the decoder, the one
    parseEventData makes for an unknown topic, and what the broker client
    reports on a failed write or read. *)
Inductive error : Type :=
| SyntaxError (text : string)
| UnmarshalTypeError (value gotype : string)
| TimeUnmarshalError
| UnsupportedTypeError
| BrokerError (text : string).

Definition logline : Type := string * list (logarg error json).

(** *** Types and functions of the libraries the service is linked with

    [time.Time] and [float64] with the conversions encoding/json applies
    to them, and [Time.UTC]. *)
Class Runtime := {
  Time : Type;
  time_zero : Time;
  (** [Time.UnmarshalJSON] on the content of a JSON string (RFC 3339). *)
  time_UnmarshalJSON : string -> option Time;
  (** [Time.MarshalJSON]: the content of the JSON string written. *)
  time_MarshalJSON : Time -> string;
  time_UTC : Time -> Time;
  Float64 : Type;
  float_zero : Float64;
  (** [strconv.ParseFloat literal 64]; [None] when out of range. *)
  strconv_ParseFloat : string -> option Float64;
  (** The number literal encoding/json writes for a finite float. *)
  float_MarshalJSON : Float64 -> string
}.

Section WithRuntime.
Context `{RT : Runtime}.

(** *** Event structures *)

Record MovieEvent := {
  MovieID : Z;
  Title : string;
  Action : string;
  UserID : Z
}.

Record UserEvent := {
  UE_UserID : Z;
  Username : string;
  UE_Action : string;
  UE_Timestamp : Time
}.

Record PaymentEvent := {
  PaymentID : Z;
  PE_UserID : Z;
  Amount : Float64;
  Status : string;
  PE_Timestamp : Time
}.

(** The [interface{}] that carries a pointer to one of the three. *)
Inductive EventData : Type :=
| OfMovie (e : MovieEvent)
| OfUser (e : UserEvent)
| OfPayment (e : PaymentEvent).

Definition movieTopic : string := "movie-events".
Definition userTopic : string := "user-events".
Definition paymentTopic : string := "payment-events".

(** *** encoding/json on these structures *)

Definition ascii_lower (c : ascii) : ascii :=
  let n := N_of_ascii c in
  if ((65 <=? n) && (n <=? 90))%N then ascii_of_N (n + 32) else c.

Fixpoint fold_name (s : string) : string :=
  match s with
  | EmptyString => EmptyString
  | String c rest => String (ascii_lower c) (fold_name rest)
  end.

(** The field a key of the object selects: the one whose name is the
    key, else the first whose name equals it up to the case of ASCII
    letters; [None] when there is none and the member is skipped. *)
Definition find_field (names : list string) (key : string)
  : option string :=
  match List.find (String.eqb key) names with
  | Some name => Some name
  | None =>
      List.find (fun name => String.eqb (fold_name key) (fold_name name))
                names
  end.

(** How [UnmarshalTypeError.Value] names a JSON value. *)
Definition describe (v : json) : string :=
  match v with
  | JNull => "null"
  | JBool _ => "bool"
  | JNumber _ => "number"
  | JString _ => "string"
  | JArray _ => "array"
  | JObject _ => "object"
  end.

(** Storing a JSON value in a field that holds [old]: [null] leaves the
    field as it is, a value of the wrong kind is an error, and so is a
    number that does not fit the field. *)
Definition store_int (v : json) (old : Z) : error + Z :=
  match v with
  | JNull => inr old
  | JNumber lit =>
      match strconv_ParseInt lit with
      | Some n => inr n
      | None => inl (UnmarshalTypeError ("number " ++ lit) "int")
      end
  | _ => inl (UnmarshalTypeError (describe v) "int")
  end.

Definition store_string (v : json) (old : string) : error + string :=
  match v with
  | JNull => inr old
  | JString s => inr s
  | _ => inl (UnmarshalTypeError (describe v) "string")
  end.

Definition store_float (v : json) (old : Float64) : error + Float64 :=
  match v with
  | JNull => inr old
  | JNumber lit =>
      match strconv_ParseFloat lit with
      | Some x => inr x
      | None => inl (UnmarshalTypeError ("number " ++ lit) "float64")
      end
  | _ => inl (UnmarshalTypeError (describe v) "float64")
  end.

Definition store_time (v : json) (old : Time) : error + Time :=
  match v with
  | JNull => inr old
  | JString s =>
      match time_UnmarshalJSON s with
      | Some t => inr t
      | None => inl TimeUnmarshalError
      end
  | _ => inl TimeUnmarshalError
  end.

Definition with_field {A S : Type} (r : error + A) (k : A -> S)
  : error + S :=
  match r with
  | inl err => inl err
  | inr a => inr (k a)
  end.

Definition MovieEvent_fields : list string :=
  ["movie_id"; "title"; "action"; "user_id"].

Definition MovieEvent_store (e : MovieEvent) (name : string) (v : json)
  : error + MovieEvent :=
  if String.eqb name "movie_id" then
    with_field (store_int v (MovieID e)) (fun n =>
      {| MovieID := n; Title := Title e; Action := Action e;
         UserID := UserID e |})
  else if String.eqb name "title" then
    with_field (store_string v (Title e)) (fun s =>
      {| MovieID := MovieID e; Title := s; Action := Action e;
         UserID := UserID e |})
  else if String.eqb name "action" then
    with_field (store_string v (Action e)) (fun s =>
      {| MovieID := MovieID e; Title := Title e; Action := s;
         UserID := UserID e |})
  else
    with_field (store_int v (UserID e)) (fun n =>
      {| MovieID := MovieID e; Title := Title e; Action := Action e;
         UserID := n |}).

Definition UserEvent_fields : list string :=
  ["user_id"; "username"; "action"; "timestamp"].

Definition UserEvent_store (e : UserEvent) (name : string) (v : json)
  : error + UserEvent :=
  if String.eqb name "user_id" then
    with_field (store_int v (UE_UserID e)) (fun n =>
      {| UE_UserID := n; Username := Username e;
         UE_Action := UE_Action e; UE_Timestamp := UE_Timestamp e |})
  else if String.eqb name "username" then
    with_field (store_string v (Username e)) (fun s =>
      {| UE_UserID := UE_UserID e; Username := s;
         UE_Action := UE_Action e; UE_Timestamp := UE_Timestamp e |})
  else if String.eqb name "action" then
    with_field (store_string v (UE_Action e)) (fun s =>
      {| UE_UserID := UE_UserID e; Username := Username e;
         UE_Action := s; UE_Timestamp := UE_Timestamp e |})
  else
    with_field (store_time v (UE_Timestamp e)) (fun t =>
      {| UE_UserID := UE_UserID e; Username := Username e;
         UE_Action := UE_Action e; UE_Timestamp := t |}).

Definition PaymentEvent_fields : list string :=
  ["payment_id"; "user_id"; "amount"; "status"; "timestamp"].

Definition PaymentEvent_store (e : PaymentEvent) (name : string)
    (v : json) : error + PaymentEvent :=
  if String.eqb name "payment_id" then
    with_field (store_int v (PaymentID e)) (fun n =>
      {| PaymentID := n; PE_UserID := PE_UserID e; Amount := Amount e;
         Status := Status e; PE_Timestamp := PE_Timestamp e |})
  else if String.eqb name "user_id" then
    with_field (store_int v (PE_UserID e)) (fun n =>
      {| PaymentID := PaymentID e; PE_UserID := n; Amount := Amount e;
         Status := Status e; PE_Timestamp := PE_Timestamp e |})
  else if String.eqb name "amount" then
    with_field (store_float v (Amount e)) (fun x =>
      {| PaymentID := PaymentID e; PE_UserID := PE_UserID e; Amount := x;
         Status := Status e; PE_Timestamp := PE_Timestamp e |})
  else if String.eqb name "status" then
    with_field (store_string v (Status e)) (fun s =>
      {| PaymentID := PaymentID e; PE_UserID := PE_UserID e;
         Amount := Amount e; Status := s;
         PE_Timestamp := PE_Timestamp e |})
  else
    with_field (store_time v (PE_Timestamp e)) (fun t =>
      {| PaymentID := PaymentID e; PE_UserID := PE_UserID e;
         Amount := Amount e; Status := Status e; PE_Timestamp := t |}).

(** The members of an object, left to right, stored into a structure:
    a key that selects no field is skipped, a repeated key overwrites. *)
Fixpoint store_members {S : Type} (names : list string)
    (store : S -> string -> json -> error + S)
    (members : list (string * json)) (e : S) : error + S :=
  match members with
  | [] => inr e
  | (key, v) :: rest =>
      match find_field names key with
      | None => store_members names store rest e
      | Some name =>
          match store e name v with
          | inl err => inl err
          | inr e' => store_members names store rest e'
          end
      end
  end.

(** Decoding a document into a structure that starts as [e]: an object
    fills the fields, [null] changes nothing, anything else is an
    error. *)
Definition unmarshal_struct {S : Type} (gotype : string)
    (names : list string) (store : S -> string -> json -> error + S)
    (doc : json) (e : S) : error + S :=
  match doc with
  | JObject members => store_members names store members e
  | JNull => inr e
  | _ => inl (UnmarshalTypeError (describe doc) gotype)
  end.

(** [json.NewDecoder(body).Decode(eventData)]. *)
Definition Decode (body : BodyStream) (eventData : EventData)
  : error + EventData :=
  match body with
  | BadStream text => inl (SyntaxError text)
  | FirstValue doc =>
      match eventData with
      | OfMovie e =>
          with_field (unmarshal_struct "MovieEvent" MovieEvent_fields
                        MovieEvent_store doc e) OfMovie
      | OfUser e =>
          with_field (unmarshal_struct "UserEvent" UserEvent_fields
                        UserEvent_store doc e) OfUser
      | OfPayment e =>
          with_field (unmarshal_struct "PaymentEvent" PaymentEvent_fields
                        PaymentEvent_store doc e) OfPayment
      end
  end.

(** [json.Marshal eventData]: the document whose bytes are returned.
    None of the field types of the three structures can make it fail
    (the floats and the times they hold come from the decoder). *)
Definition json_Marshal (eventData : EventData) : error + json :=
  match eventData with
  | OfMovie e =>
      inr (JObject [("movie_id", JNumber (strconv_Itoa (MovieID e)));
                    ("title", JString (Title e));
                    ("action", JString (Action e));
                    ("user_id", JNumber (strconv_Itoa (UserID e)))])
  | OfUser e =>
      inr (JObject [("user_id", JNumber (strconv_Itoa (UE_UserID e)));
                    ("username", JString (Username e));
                    ("action", JString (UE_Action e));
                    ("timestamp",
                     JString (time_MarshalJSON (UE_Timestamp e)))])
  | OfPayment e =>
      inr (JObject [("payment_id", JNumber (strconv_Itoa (PaymentID e)));
                    ("user_id", JNumber (strconv_Itoa (PE_UserID e)));
                    ("amount", JNumber (float_MarshalJSON (Amount e)));
                    ("status", JString (Status e));
                    ("timestamp",
                     JString (time_MarshalJSON (PE_Timestamp e)))])
  end.

(** *** The process and its surroundings *)

(** [kafka.Writer]; [writer_id] tells apart the writers built during
    one run (the code holds them by pointer). The balancer is always
    [LeastBytes]. *)
Record Writer := {
  writer_id : nat;
  Addr : list string
}.

(** [kafka.Message] as the service fills it; [Value] is the document
    whose bytes are sent. *)
Record Message := {
  Topic : string;
  Value : json
}.

(** What a handler does to the outside, in the order it happens. *)
Inductive effect : Type :=
| BodyDecoded (body : BodyStream)
| WriterBuilt (wr : Writer)
| WriteAttempt (wr : Writer) (m : Message) (result : option error)
| Logged (line : logline).

(** The state a request handler runs in. [kafkaWriter] is [None] until
    [once.Do] has run its function, the two package variables changing
    together in sequential code; [broker_reply] is what the broker
    answers to a write. *)
Record World := {
  environ : gmap string string;
  wall_clock : Time;
  kafkaWriter : option Writer;
  writers_built : nat;
  broker_reply : Writer -> Message -> option error;
  history : list effect
}.

Definition record_effect (e : effect) (w : World) : World :=
  {| environ := environ w;
     wall_clock := wall_clock w;
     kafkaWriter := kafkaWriter w;
     writers_built := writers_built w;
     broker_reply := broker_reply w;
     history := history w ++ [e] |}.

Definition log_Printf (format : string) (args : list (logarg error json))
    (w : World) : World :=
  record_effect (Logged (format, args)) w.

(** getEnv *)
Definition getEnv (env : gmap string string) (key fallback : string)
  : string :=
  match os_LookupEnv env key with
  | Some value => value
  | None => fallback
  end.

(** initKafkaWriter, building the writer numbered [id]. *)
Definition initKafkaWriter (env : gmap string string) (id : nat)
  : Writer :=
  let kafkaBrokers := getEnv env "KAFKA_BROKERS" "localhost:9092" in
  let brokers := strings_Split kafkaBrokers ","%char in
  {| writer_id := id; Addr := brokers |}.

(** getKafkaWriter *)
Definition getKafkaWriter (w : World) : Writer * World :=
  match kafkaWriter w with
  | Some wr => (wr, w)
  | None =>
      let wr := initKafkaWriter (environ w) (writers_built w) in
      (wr,
       record_effect (WriterBuilt wr)
         {| environ := environ w;
            wall_clock := wall_clock w;
            kafkaWriter := Some wr;
            writers_built := S (writers_built w);
            broker_reply := broker_reply w;
            history := history w |})
  end.

(** [writer.WriteMessages ctx message]: [None] when the broker took the
    message, the error otherwise. *)
Definition WriteMessages (wr : Writer) (m : Message) (w : World)
  : option error * World :=
  let result := broker_reply w wr m in
  (result, record_effect (WriteAttempt wr m result) w).

(** *** HTTP *)

Record Request := {
  Method : string;
  Path : string;
  Body : BodyStream
}.

(** What was written to the response: a line of text, the text of an
    error (both followed by a newline), or a JSON document. *)
Inductive ResponseBody : Type :=
| TextLine (text : string)
| ErrorLine (err : error)
| JSONDocument (doc : json).

Record Response := {
  StatusCode : Z;
  Header : gmap string string;
  ResponseText : ResponseBody
}.

Definition StatusOK : Z := 200.
Definition StatusCreated : Z := 201.
Definition StatusBadRequest : Z := 400.
Definition StatusNotFound : Z := 404.
Definition StatusMethodNotAllowed : Z := 405.
Definition StatusInternalServerError : Z := 500.
Definition MethodPost : string := "POST".

(** [http.Error w body code]. *)
Definition http_Error (body : ResponseBody) (code : Z) : Response :=
  {| StatusCode := code;
     Header := <["Content-Type" := "text/plain; charset=utf-8"]>
                 (<["X-Content-Type-Options" := "nosniff"]> ∅);
     ResponseText := body |}.

Definition Handler : Type := Request -> World -> Response * World.

(** parseEventData *)
Definition parseEventData (topic : string) (r : Request) (w : World)
  : (error + EventData) * World :=
  let eventData :=
    if String.eqb topic movieTopic then
      Some (OfMovie {| MovieID := 0; Title := ""; Action := "";
                       UserID := 0 |})
    else if String.eqb topic userTopic then
      Some (OfUser {| UE_UserID := 0; Username := ""; UE_Action := "";
                      UE_Timestamp := time_zero |})
    else if String.eqb topic paymentTopic then
      Some (OfPayment {| PaymentID := 0; PE_UserID := 0;
                         Amount := float_zero; Status := "";
                         PE_Timestamp := time_zero |})
    else None in
  match eventData with
  | None => (inl UnsupportedTypeError, w)
  | Some eventData =>
      (Decode (Body r) eventData, record_effect (BodyDecoded (Body r)) w)
  end.

(** sendToKafka *)
Definition sendToKafka (topic : string) (eventData : EventData)
    (w : World) : option error * World :=
  match json_Marshal eventData with
  | inl err => (Some err, w)
  | inr eventBytes =>
      let '(writer, w1) := getKafkaWriter w in
      let message := {| Topic := topic; Value := eventBytes |} in
      WriteMessages writer message w1
  end.

(** sendSuccessResponse *)
Definition sendSuccessResponse (topic : string) (eventData : EventData)
    (w : World) : Response * World :=
  let eventBytes :=
    match json_Marshal eventData with
    | inr doc => ArgBytes doc
    | inl _ => ArgString ""
    end in
  let w1 :=
    log_Printf "Сообщение отправлено в топик %s: %s"
               [ArgString topic; eventBytes] w in
  ({| StatusCode := StatusCreated;
      Header := <["Content-Type" := "application/json"]> ∅;
      ResponseText :=
        JSONDocument
          (JObject [("message", JString "Событие успешно обработано");
                    ("status", JString "success")]) |},
   w1).

(** handleEvent *)
Definition handleEvent (topic : string) : Handler := fun r w =>
  if negb (String.eqb (Method r) MethodPost) then
    (http_Error (TextLine "Метод не поддерживается")
                StatusMethodNotAllowed, w)
  else
    let '(parsed, w1) := parseEventData topic r w in
    match parsed with
    | inl err => (http_Error (ErrorLine err) StatusBadRequest, w1)
    | inr eventData =>
        let '(failure, w2) := sendToKafka topic eventData w1 in
        match failure with
        | Some err =>
            let w3 :=
              log_Printf "Ошибка отправки в Kafka: %v" [ArgError err] w2 in
            (http_Error (TextLine "Ошибка обработки события")
                        StatusInternalServerError, w3)
        | None => sendSuccessResponse topic eventData w2
        end
    end.

(** healthCheckHandler. The map is written with its keys in order. *)
Definition healthCheckHandler : Handler := fun r w =>
  let response :=
    JObject [("service", JString "events-service");
             ("status", JBool true);
             ("timestamp",
              JString (time_MarshalJSON (time_UTC (wall_clock w))))] in
  ({| StatusCode := StatusOK;
      Header := <["Content-Type" := "application/json"]> ∅;
      ResponseText := JSONDocument response |},
   w).

(** The patterns [main] registers with [http.HandleFunc]. *)
Definition routes : gmap string Handler :=
  <["/api/events/health" := healthCheckHandler]>
    (<["/api/events/payment" := handleEvent paymentTopic]>
       (<["/api/events/user" := handleEvent userTopic]>
          (<["/api/events/movie" := handleEvent movieTopic]> ∅))).

(** The server's dispatch on the request path: none of the patterns
    ends in a slash, so each serves exactly its own path. *)
Definition ServeHTTP : Handler := fun r w =>
  match (routes !! Path r : option Handler) with
  | Some handler => handler r w
  | None => (http_Error (TextLine "404 page not found") StatusNotFound, w)
  end.

(** *** The consumer of one topic *)

Record ReaderConfig := {
  Brokers : list string;
  RC_Topic : string;
  GroupID : string;
  MinBytes : Z;
  MaxBytes : Z
}.

(** A message as [reader.ReadMessage] returns it. *)
Record Delivery := {
  D_Topic : string;
  D_Offset : Z;
  D_Value : string
}.

Inductive Phase : Type := Initializing | Running | Terminated.

(** One consumer goroutine: where it is, the reader it holds while it
    is open, how many times it has called [ReadMessage], what it has
    logged, and whether it has told the wait group it is done. *)
Record Consumer := {
  phase : Phase;
  reader : option ReaderConfig;
  reads_made : nat;
  lines : list logline;
  wg_done : bool
}.

Definition consumer_start : Consumer :=
  {| phase := Initializing; reader := None; reads_made := 0%nat;
     lines := []; wg_done := false |}.

(** The three [log.Printf] calls of consumeTopic: before the loop, on a
    read error, and for a message read. *)
Definition started_line (topic : string) : logline :=
  ("Потребитель запущен для топика: %s", [ArgString topic]).

Definition read_error_line (topic : string) (err : error) : logline :=
  ("Ошибка чтения из топика %s: %v", [ArgString topic; ArgError err]).

Definition consumed_line (message : Delivery) : logline :=
  ("[ПОТРЕБИТЕЛЬ] Топик: %s, Смещение: %d, Сообщение: %s",
   [ArgString (D_Topic message); ArgInt (D_Offset message);
    ArgString (D_Value message)]).

(** consumeTopic, one step at a time: the code before the loop, then
    one turn of the loop per step; [incoming n] is what the [n]-th call
    of [ReadMessage] returns. Leaving the loop runs the two deferred
    calls ([reader.Close], [wg.Done]) and the goroutine is over. *)
Definition consumeTopic_step (env : gmap string string) (topic : string)
    (incoming : nat -> error + Delivery) (c : Consumer) : Consumer :=
  match phase c with
  | Initializing =>
      let kafkaBrokers := getEnv env "KAFKA_BROKERS" "localhost:9092" in
      let brokers := strings_Split kafkaBrokers ","%char in
      {| phase := Running;
         reader := Some {| Brokers := brokers;
                           RC_Topic := topic;
                           GroupID := "cinemaabyss-events-consumer-group";
                           MinBytes := 10000;
                           MaxBytes := 10000000 |};
         reads_made := reads_made c;
         lines := lines c ++ [started_line topic];
         wg_done := wg_done c |}
  | Running =>
      match incoming (reads_made c) with
      | inl err =>
          {| phase := Terminated;
             reader := None;
             reads_made := S (reads_made c);
             lines := lines c ++ [read_error_line topic err];
             wg_done := true |}
      | inr message =>
          {| phase := Running;
             reader := reader c;
             reads_made := S (reads_made c);
             lines := lines c ++ [consumed_line message];
             wg_done := wg_done c |}
      end
  | Terminated => c
  end.

(** The goroutine after [n] steps. *)
Definition consumeTopic_run (env : gmap string string) (topic : string)
    (incoming : nat -> error + Delivery) (n : nat) : Consumer :=
  Nat.iter n (consumeTopic_step env topic incoming) consumer_start.

(** The reader [consumeTopic] holds while it runs. *)
Definition reader_config (env : gmap string string) (topic : string)
  : ReaderConfig :=
  {| Brokers := strings_Split (getEnv env "KAFKA_BROKERS" "localhost:9092")
                              ","%char;
     RC_Topic := topic;
     GroupID := "cinemaabyss-events-consumer-group";
     MinBytes := 10000;
     MaxBytes := 10000000 |}.

(** *** Goroutines racing through getKafkaWriter

    [once.Do] is the one of package sync: a first load of [done], and
    when it is still zero [doSlow], which takes the mutex, loads [done]
    again, runs the function and has deferred the store to [done] and
    the unlock. Each goroutine is at one of these points, and the
    scheduler lets any one of them take its next step. *)
Inductive Point : Type :=
| AtDoLoad
| AtLock
| AtSlowLoad
| AtInit
| AtStore
| AtUnlock
| AtReturn
| Returned (result : option Writer).

Record Shared := {
  once_done : bool;
  once_m : option nat;
  shared_kafkaWriter : option Writer;
  built : list Writer
}.

Definition shared_start : Shared :=
  {| once_done := false; once_m := None; shared_kafkaWriter := None;
     built := [] |}.

(** The next step of goroutine [i] standing at [pt]; [None] when it
    cannot move (the mutex is held, or it has returned). *)
Definition goroutine_step (env : gmap string string) (i : nat)
    (pt : Point) (sh : Shared) : option (Point * Shared) :=
  match pt with
  | AtDoLoad => Some (if once_done sh then AtReturn else AtLock, sh)
  | AtLock =>
      match once_m sh with
      | Some _ => None
      | None =>
          Some (AtSlowLoad,
                {| once_done := once_done sh; once_m := Some i;
                   shared_kafkaWriter := shared_kafkaWriter sh;
                   built := built sh |})
      end
  | AtSlowLoad => Some (if once_done sh then AtUnlock else AtInit, sh)
  | AtInit =>
      let wr := initKafkaWriter env (List.length (built sh)) in
      Some (AtStore,
            {| once_done := once_done sh; once_m := once_m sh;
               shared_kafkaWriter := Some wr;
               built := built sh ++ [wr] |})
  | AtStore =>
      Some (AtUnlock,
            {| once_done := true; once_m := once_m sh;
               shared_kafkaWriter := shared_kafkaWriter sh;
               built := built sh |})
  | AtUnlock =>
      Some (AtReturn,
            {| once_done := once_done sh; once_m := None;
               shared_kafkaWriter := shared_kafkaWriter sh;
               built := built sh |})
  | AtReturn => Some (Returned (shared_kafkaWriter sh), sh)
  | Returned _ => None
  end.

(** The process: its goroutines inside getKafkaWriter and the package
    variables. A step is a new call of getKafkaWriter starting on a
    goroutine of its own, or one goroutine moving on. *)
Definition Process : Type := list Point * Shared.

Inductive race_step (env : gmap string string) : Process -> Process -> Prop :=
| race_call (ts : list Point) (sh : Shared) :
    race_step env (ts, sh) ((ts ++ [AtDoLoad])%list, sh)
| race_move (ts : list Point) (sh sh' : Shared) (i : nat)
    (pt pt' : Point) :
    ts !! i = Some pt ->
    goroutine_step env i pt sh = Some (pt', sh') ->
    race_step env (ts, sh) (<[i := pt']> ts, sh').

Definition process_start : Process := ([], shared_start).

(** A schedule: which call starts or which goroutine moves, step by
    step. A goroutine that cannot move when its turn comes waits. *)
Inductive Turn : Type :=
| Call
| Move (i : nat).

Fixpoint run_schedule (env : gmap string string) (turns : list Turn)
    (p : Process) : Process :=
  match turns with
  | [] => p
  | Call :: rest => run_schedule env rest ((fst p ++ [AtDoLoad])%list, snd p)
  | Move i :: rest =>
      match fst p !! i with
      | Some pt =>
          match goroutine_step env i pt (snd p) with
          | Some (pt', sh') => run_schedule env rest (<[i := pt']> (fst p), sh')
          | None => run_schedule env rest p
          end
      | None => run_schedule env rest p
      end
  end.

(** Two calls that both find [done] still zero, the second then waiting
    for the mutex while the first builds the writer. *)
Definition racing_schedule : list Turn :=
  [Call; Call; Move 0%nat; Move 1%nat;
   Move 0%nat; Move 1%nat; Move 0%nat; Move 0%nat; Move 0%nat; Move 0%nat;
   Move 1%nat; Move 0%nat; Move 1%nat; Move 1%nat; Move 1%nat].

(** The points at which a goroutine holds the mutex of [once]. *)
Definition holds_mutex (pt : Point) : bool :=
  match pt with
  | AtSlowLoad | AtInit | AtStore | AtUnlock => true
  | _ => false
  end.

(** The points a goroutine reaches only after [done] was seen or set. *)
Definition past_once (pt : Point) : bool :=
  match pt with
  | AtUnlock | AtReturn | Returned _ => true
  | _ => false
  end.

(** What holds of the process at every moment of every schedule. *)
Record race_inv (ts : list Point) (sh : Shared) : Prop := {
  inv_mutex : forall i pt,
    ts !! i = Some pt -> holds_mutex pt = true -> once_m sh = Some i;
  inv_done :
    once_done sh = true ->
    exists wr, built sh = [wr] /\ shared_kafkaWriter sh = Some wr;
  inv_init : forall i,
    ts !! i = Some AtInit -> once_done sh = false /\ built sh = [];
  inv_store : forall i,
    ts !! i = Some AtStore ->
    exists wr, built sh = [wr] /\ shared_kafkaWriter sh = Some wr;
  inv_past : forall i pt,
    ts !! i = Some pt -> past_once pt = true -> once_done sh = true;
  inv_returned : forall i result,
    ts !! i = Some (Returned result) -> result = shared_kafkaWriter sh;
  inv_pending :
    built sh <> [] -> once_done sh = true \/ exists i, ts !! i = Some AtStore
}.

(** How many times a handler called [WriteMessages]. *)
Fixpoint write_attempts (h : list effect) : nat :=
  match h with
  | [] => 0%nat
  | WriteAttempt _ _ _ :: rest => S (write_attempts rest)
  | _ :: rest => write_attempts rest
  end.

(** The messages the broker took. *)
Fixpoint published (h : list effect) : list Message :=
  match h with
  | [] => []
  | WriteAttempt _ m None :: rest => m :: published rest
  | _ :: rest => published rest
  end.

(** How many request bodies were handed to the decoder. *)
Fixpoint bodies_decoded (h : list effect) : nat :=
  match h with
  | [] => 0%nat
  | BodyDecoded _ :: rest => S (bodies_decoded rest)
  | _ :: rest => bodies_decoded rest
  end.

(** A freshly started process whose broker answers every write with
    [reply]. *)
Definition fresh_world (env : gmap string string) (now : Time)
    (reply : option error) : World :=
  {| environ := env;
     wall_clock := now;
     kafkaWriter := None;
     writers_built := 0;
     broker_reply := fun _ _ => reply;
     history := [] |}.

(** The process as [main] leaves it before it starts serving: its first
    statement has built the writer. *)
Definition started_world (env : gmap string string) (now : Time)
    (reply : option error) : World :=
  snd (getKafkaWriter (fresh_world env now reply)).

(** A POST of the empty object to [path]. *)
Definition empty_object_request (path : string) : Request :=
  {| Method := "POST"; Path := path; Body := FirstValue (JObject []) |}.

(** The request of the specification's example: a movie event with only
    its title. *)
Definition title_only_request : Request :=
  {| Method := "POST";
     Path := "/api/events/movie";
     Body := FirstValue (JObject [("title", JString "Dune")]) |}.

(** A complete movie event. *)
Definition complete_movie_request : Request :=
  {| Method := "POST";
     Path := "/api/events/movie";
     Body := FirstValue (JObject [("movie_id", JNumber "1");
                                  ("title", JString "Dune");
                                  ("action", JString "viewed");
                                  ("user_id", JNumber "42")]) |}.

(** *** Runs of requests, and what they leave behind *)

(** Requests served one after the other by the same process. *)
Fixpoint serve_requests (rs : list Request) (w : World)
  : list Response * World :=
  match rs with
  | [] => ([], w)
  | r :: rest =>
      let '(response, w1) := ServeHTTP r w in
      let '(responses, w2) := serve_requests rest w1 in
      (response :: responses, w2)
  end.

(** The writers built, and the writer of each call of [WriteMessages]. *)
Fixpoint writers_made (h : list effect) : list Writer :=
  match h with
  | [] => []
  | WriterBuilt wr :: rest => wr :: writers_made rest
  | _ :: rest => writers_made rest
  end.

Fixpoint writers_used (h : list effect) : list Writer :=
  match h with
  | [] => []
  | WriteAttempt wr _ _ :: rest => wr :: writers_used rest
  | _ :: rest => writers_used rest
  end.

(** The process holds at most one writer, the first it built: either
    none was built and none was used, or the one in [kafkaWriter] is the
    only one built and the only one used. *)
Definition one_writer (env : gmap string string) (w : World) : Prop :=
  environ w = env
  /\ match kafkaWriter w with
     | None =>
         writers_built w = 0%nat
         /\ writers_made (history w) = []
         /\ writers_used (history w) = []
     | Some wr =>
         wr = initKafkaWriter env 0
         /\ writers_made (history w) = [wr]
         /\ Forall (eq wr) (writers_used (history w))
     end.

(** The topic an event belongs to, the endpoint that takes it, and the
    empty structure parseEventData hands to the decoder for it. *)
Definition topic_of (eventData : EventData) : string :=
  match eventData with
  | OfMovie _ => movieTopic
  | OfUser _ => userTopic
  | OfPayment _ => paymentTopic
  end.

Definition endpoint_of (eventData : EventData) : string :=
  match eventData with
  | OfMovie _ => "/api/events/movie"
  | OfUser _ => "/api/events/user"
  | OfPayment _ => "/api/events/payment"
  end.

Definition blank_of (eventData : EventData) : EventData :=
  match eventData with
  | OfMovie _ =>
      OfMovie {| MovieID := 0; Title := ""; Action := ""; UserID := 0 |}
  | OfUser _ =>
      OfUser {| UE_UserID := 0; Username := ""; UE_Action := "";
                UE_Timestamp := time_zero |}
  | OfPayment _ =>
      OfPayment {| PaymentID := 0; PE_UserID := 0; Amount := float_zero;
                   Status := ""; PE_Timestamp := time_zero |}
  end.

(** An event whose integers are Go [int]s and whose time and amount are
    read back by the library from what it writes for them. *)
Definition representable (eventData : EventData) : Prop :=
  match eventData with
  | OfMovie e =>
      in_int_range (MovieID e) = true /\ in_int_range (UserID e) = true
  | OfUser e =>
      in_int_range (UE_UserID e) = true
      /\ time_UnmarshalJSON (time_MarshalJSON (UE_Timestamp e))
         = Some (UE_Timestamp e)
  | OfPayment e =>
      in_int_range (PaymentID e) = true /\ in_int_range (PE_UserID e) = true
      /\ strconv_ParseFloat (float_MarshalJSON (Amount e)) = Some (Amount e)
      /\ time_UnmarshalJSON (time_MarshalJSON (PE_Timestamp e))
         = Some (PE_Timestamp e)
  end.

(** *** Measures on the racing goroutines *)

(** The steps a goroutine standing at [pt] has at most left to take. *)
Definition steps_left (pt : Point) : nat :=
  match pt with
  | AtDoLoad => 7
  | AtLock => 6
  | AtSlowLoad => 5
  | AtInit => 4
  | AtStore => 3
  | AtUnlock => 2
  | AtReturn => 1
  | Returned _ => 0
  end.

Fixpoint work_left (ts : list Point) : nat :=
  match ts with
  | [] => 0
  | pt :: rest => steps_left pt + work_left rest
  end.

Definition has_returned (pt : Point) : bool :=
  match pt with
  | Returned _ => true
  | _ => false
  end.

End WithRuntime.

(** A runtime for examples, in which a time and a float are the text they
    are written as. *)
Definition sample_runtime : Runtime :=
  {| Time := string;
     time_zero := "0001-01-01T00:00:00Z";
     time_UnmarshalJSON := Some;
     time_MarshalJSON := fun t => t;
     time_UTC := fun t => t;
     Float64 := string;
     float_zero := "0";
     strconv_ParseFloat := Some;
     float_MarshalJSON := fun x => x |}.

Definition sample_world (reply : option error) : @World sample_runtime :=
  @fresh_world sample_runtime ∅ "2024-05-01T10:00:00Z" reply.

(** A broker that delivers one message, then fails once, then would
    deliver again. *)
Definition sample_delivery : Delivery :=
  {| D_Topic := "movie-events"; D_Offset := 0; D_Value := "{}" |}.

Definition sample_incoming (n : nat) : error + Delivery :=
  if Nat.eqb n 1 then inl (BrokerError "connection reset")
  else inr sample_delivery.

(** Two calls that both find [done] still zero, up to the moment the
    first has built the writer while the second waits for the mutex; and
    the turns that bring both to their return from there. *)
Definition building_schedule : list Turn :=
  [Call; Call; Move 0%nat; Move 1%nat;
   Move 0%nat; Move 1%nat; Move 0%nat; Move 0%nat].

Definition finishing_schedule : list Turn :=
  [Move 0%nat; Move 0%nat;
   Move 1%nat; Move 0%nat; Move 1%nat; Move 1%nat; Move 1%nat].

(** A complete user event of the example runtime. *)
Definition sample_user_event : @EventData sample_runtime :=
  @OfUser sample_runtime
    (@Build_UserEvent sample_runtime 42 "neo" "login"
       "2024-05-01T10:00:00Z").

End Events.

(** * Properties of the library functions *)

Module GoFacts.
Import Go.

Ltac eval_digit :=
  match goal with
  | |- context [digit_value ?c] =>
      let v := eval vm_compute in (digit_value c) in
      change (digit_value c) with v; cbv iota beta
  end.

(** Reading back the digits of a decimal number, with digits already read. *)
Lemma parse_digits_of_uint_acc (d : Decimal.uint) (acc : positive) :
  parse_digits (Z.pos acc) (NilEmpty.string_of_uint d)
  = Some (Z.pos (Pos.of_uint_acc d acc)).
Proof.
  revert acc.
  induction d as [|d IH|d IH|d IH|d IH|d IH|d IH|d IH|d IH|d IH|d IH];
    intros acc; [reflexivity|..];
    cbn [NilEmpty.string_of_uint parse_digits Pos.of_uint_acc];
    eval_digit; rewrite <- IH; f_equal; lia.
Qed.

Lemma parse_digits_of_uint (d : Decimal.uint) :
  parse_digits 0 (NilEmpty.string_of_uint d) = Some (Z.of_N (Pos.of_uint d)).
Proof.
  induction d as [|d IH|d IH|d IH|d IH|d IH|d IH|d IH|d IH|d IH|d IH];
    [reflexivity|..];
    cbn [NilEmpty.string_of_uint parse_digits Pos.of_uint];
    eval_digit; [exact IH|..];
    cbn [Z.of_N]; rewrite <- parse_digits_of_uint_acc; reflexivity.
Qed.

(** The decimal writing of a positive number starts with a digit. *)
Lemma to_uint_first_digit (p : positive) :
  exists c rest,
    NilZero.string_of_uint (Pos.to_uint p) = String c rest
    /\ digit_value c <> None
    /\ NilZero.string_of_uint (Pos.to_uint p)
       = NilEmpty.string_of_uint (Pos.to_uint p).
Proof.
  pose proof (DecimalPos.Unsigned.of_to p) as Hof.
  destruct (Pos.to_uint p) eqn:Hd; [discriminate Hof|..];
    eexists _, _;
    (split; [reflexivity|split; [vm_compute; discriminate|reflexivity]]).
Qed.

Lemma parse_unsigned_to_uint (p : positive) :
  parse_unsigned (NilZero.string_of_uint (Pos.to_uint p)) = Some (Z.pos p).
Proof.
  destruct (to_uint_first_digit p) as (c & rest & Hs & _ & Hnil).
  unfold parse_unsigned. rewrite Hs, <- Hs, Hnil, parse_digits_of_uint.
  now rewrite DecimalPos.Unsigned.of_to.
Qed.

Example Atoi_plain : strconv_Atoi "42" = Some 42.
Proof. reflexivity. Qed.

Example Atoi_signs :
  strconv_Atoi "+7" = Some 7 /\ strconv_Atoi "-7" = Some (-7)
  /\ strconv_Atoi "007" = Some 7.
Proof. repeat split; reflexivity. Qed.

Example Atoi_syntax_errors :
  strconv_Atoi "" = None /\ strconv_Atoi "-" = None
  /\ strconv_Atoi "12a" = None /\ strconv_Atoi " 12" = None
  /\ strconv_Atoi "5.0" = None.
Proof. repeat split; reflexivity. Qed.

Example Atoi_range :
  strconv_Atoi "9223372036854775807" = Some int_max
  /\ strconv_Atoi "9223372036854775808" = None
  /\ strconv_Atoi "-9223372036854775808" = Some int_min.
Proof. repeat split; reflexivity. Qed.

Example Split_brokers :
  strings_Split "kafka-1:9092,kafka-2:9092" ","%char
  = ["kafka-1:9092"; "kafka-2:9092"]
  /\ strings_Split "localhost:9092" ","%char = ["localhost:9092"]
  /\ strings_Split "" ","%char = [""].
Proof. repeat split; reflexivity. Qed.

(** [Atoi] reads back what [Itoa] writes. *)
Lemma Atoi_Itoa (n : Z) :
  in_int_range n = true -> strconv_Atoi (strconv_Itoa n) = Some n.
Proof.
  intros Hrange. unfold strconv_Atoi, strconv_ParseInt, strconv_Itoa.
  destruct n as [|p|p]; cbn [Z.to_int NilZero.string_of_int].
  - reflexivity.
  - destruct (to_uint_first_digit p) as (c & rest & Hs & Hdigit & _).
    assert (Hc : c <> "-"%char /\ c <> "+"%char)
      by (split; intros ->; apply Hdigit; reflexivity).
    pose proof (parse_unsigned_to_uint p) as Hp. rewrite Hs in *.
    destruct Hc as [Hminus Hplus].
    destruct c as [[] [] [] [] [] [] [] []]; try congruence;
      rewrite Hp; now rewrite Hrange.
  - rewrite parse_unsigned_to_uint. simpl.
    change (- Z.pos p) with (Z.neg p). now rewrite Hrange.
Qed.

End GoFacts.

(** * Properties of the proxy *)

Module ProxyProofs.
Import Go Proxy.

(** Two paths of the gateway cannot start with both area prefixes. *)
Lemma movies_prefix_excludes_events (path : string) :
  strings_HasPrefix path "/api/events" = true ->
  strings_HasPrefix path "/api/movies" = false.
Proof.
  unfold strings_HasPrefix. intros Hevents.
  destruct (String.prefix "/api/movies" path) eqn:Hmovies; [|reflexivity].
  apply prefix_correct in Hevents, Hmovies.
  simpl String.length in *. congruence.
Qed.

Section WithURL.
Variable URL : Type.
Variable url_Parse : string -> URL + string.

Lemma shouldRouteToMovies_enabled (config : ProxyConfig URL) (r : RandSource) :
  GradualMigration config = true ->
  shouldRouteToMovies config r =
    (next_draw r <? MoviesMigrationPercent config,
     {| rand_output := rand_output r; rand_calls := S (rand_calls r) |}).
Proof. intros Hgate. unfold shouldRouteToMovies. now rewrite Hgate. Qed.

Lemma shouldRouteToMovies_disabled (config : ProxyConfig URL) (r : RandSource) :
  GradualMigration config = false ->
  shouldRouteToMovies config r = (false, r).
Proof. intros Hgate. unfold shouldRouteToMovies. now rewrite Hgate. Qed.

(** C2. For a path with the movies prefix and gradual migration enabled,
    whatever value in [[0, 100)] the shared random source yields: with a
    percentage of 0 the request goes to the monolith, with a percentage of
    100 it goes to the movies service, and in general the movies service is
    chosen exactly when the draw is strictly below the percentage (the
    monolith exactly when it is not). One draw is taken. *)
Theorem routeRequest_movies_gradual
    (config : ProxyConfig URL) (path : string) (r : RandSource) :
  strings_HasPrefix path "/api/movies" = true ->
  GradualMigration config = true ->
  0 <= next_draw r < 100 ->
  (MoviesMigrationPercent config = 0 ->
   fst (routeRequest config path r) =
     (createReverseProxy (MonolithURL config), "monolith"))
  /\ (MoviesMigrationPercent config = 100 ->
      fst (routeRequest config path r) =
        (createReverseProxy (MoviesServiceURL config), "movies-service"))
  /\ (fst (routeRequest config path r) =
        (createReverseProxy (MoviesServiceURL config), "movies-service")
      <-> next_draw r < MoviesMigrationPercent config)
  /\ (fst (routeRequest config path r) =
        (createReverseProxy (MonolithURL config), "monolith")
      <-> MoviesMigrationPercent config <= next_draw r)
  /\ rand_calls (snd (routeRequest config path r)) = S (rand_calls r).
Proof.
  intros Hpath Hgate Hdraw.
  unfold routeRequest. rewrite Hpath.
  rewrite (shouldRouteToMovies_enabled _ _ Hgate).
  destruct (Z.ltb_spec (next_draw r) (MoviesMigrationPercent config))
    as [Hlt | Hge]; simpl.
  - repeat split; try reflexivity; try lia; intros H; try lia; discriminate H.
  - repeat split; try reflexivity; try lia; intros H; try lia; discriminate H.
Qed.

(** C3. For a path with the movies prefix and gradual migration disabled,
    the request goes to the monolith whatever the percentage is, and the
    shared random source is left as it was: no draw is taken. *)
Theorem routeRequest_movies_disabled
    (config : ProxyConfig URL) (path : string) (r : RandSource) :
  strings_HasPrefix path "/api/movies" = true ->
  GradualMigration config = false ->
  routeRequest config path r =
    ((createReverseProxy (MonolithURL config), "monolith"), r)
  /\ shouldRouteToMovies config r = (false, r).
Proof.
  intros Hpath Hgate. unfold routeRequest.
  rewrite Hpath, (shouldRouteToMovies_disabled _ _ Hgate). split; reflexivity.
Qed.

(** C4. A path with neither the movies prefix nor the events prefix goes to
    the monolith, and a path with the events prefix goes to the events
    service, for every value of the gradual-migration flag and of the
    percentage; in both cases the random source is left as it was. *)
Theorem routeRequest_events_and_default
    (config : ProxyConfig URL) (path : string) (r : RandSource) :
  (strings_HasPrefix path "/api/movies" = false ->
   strings_HasPrefix path "/api/events" = false ->
   routeRequest config path r =
     ((createReverseProxy (MonolithURL config), "monolith"), r))
  /\ (strings_HasPrefix path "/api/events" = true ->
      routeRequest config path r =
        ((createReverseProxy (EventsServiceURL config), "events-service"), r)).
Proof.
  split.
  - intros Hmovies Hevents. unfold routeRequest.
    now rewrite Hmovies, Hevents.
  - intros Hevents. unfold routeRequest.
    now rewrite (movies_prefix_excludes_events _ Hevents), Hevents.
Qed.

Lemma parseMigrationPercent_range (percentStr : string) :
  0 <= fst (parseMigrationPercent percentStr) <= 100.
Proof.
  unfold parseMigrationPercent.
  destruct (strconv_Atoi percentStr) as [percent|]; [|simpl; lia].
  destruct (Z.ltb_spec percent 0); simpl; [lia|].
  destruct (Z.gtb_spec percent 100); simpl; lia.
Qed.

Lemma parseMigrationPercent_Atoi (percentStr : string) (n : Z) :
  strconv_Atoi percentStr = Some n ->
  fst (parseMigrationPercent percentStr)
  = if (0 <=? n) && (n <=? 100) then n else 0.
Proof.
  intros Hn. unfold parseMigrationPercent. rewrite Hn.
  destruct (Z.ltb_spec n 0), (Z.gtb_spec n 100),
    (Z.leb_spec 0 n), (Z.leb_spec n 100); simpl; lia.
Qed.

(** C5. parseMigrationPercent returns 0 for a string [strconv.Atoi]
    rejects and for a number outside [[0, 100]], and the number itself
    inside [[0, 100]]; its result is always within [[0, 100]]. Read on the
    decimal writing of an [int], it is the identity on [[0, 100]] and 0
    elsewhere. The configuration [loadConfig] builds holds exactly that
    result, so its percentage lies in [[0, 100]]; start-up goes through
    whenever the three addresses parse, whatever the percentage string is;
    and the routing decision compares the draw with the stored percentage
    as it is. *)
Theorem parseMigrationPercent_coerces (percentStr : string) :
  (strconv_Atoi percentStr = None ->
   fst (parseMigrationPercent percentStr) = 0)
  /\ (forall n, strconv_Atoi percentStr = Some n -> n < 0 \/ 100 < n ->
      fst (parseMigrationPercent percentStr) = 0)
  /\ (forall n, strconv_Atoi percentStr = Some n -> 0 <= n <= 100 ->
      fst (parseMigrationPercent percentStr) = n)
  /\ 0 <= fst (parseMigrationPercent percentStr) <= 100
  /\ (forall n, in_int_range n = true ->
      fst (parseMigrationPercent (strconv_Itoa n))
      = if (0 <=? n) && (n <=? 100) then n else 0)
  /\ (forall env config logs,
      loadConfig url_Parse env = Started config logs ->
      MoviesMigrationPercent config
      = fst (parseMigrationPercent (getEnv env "MOVIES_MIGRATION_PERCENT" "0"))
      /\ 0 <= MoviesMigrationPercent config <= 100)
  /\ (forall env monoURL movURL evtURL,
      url_Parse (getEnv env "MONOLITH_URL" "http://localhost:8080")
        = inl monoURL ->
      url_Parse (getEnv env "MOVIES_SERVICE_URL" "http://localhost:8081")
        = inl movURL ->
      url_Parse (getEnv env "EVENTS_SERVICE_URL" "http://localhost:8082")
        = inl evtURL ->
      exists config logs, loadConfig url_Parse env = Started config logs)
  /\ (forall (config : ProxyConfig URL) r,
      GradualMigration config = true ->
      fst (shouldRouteToMovies config r)
      = (next_draw r <? MoviesMigrationPercent config)).
Proof.
  repeat apply conj.
  - intros Herr. unfold parseMigrationPercent. now rewrite Herr.
  - intros n Hn Hout. rewrite (parseMigrationPercent_Atoi _ _ Hn).
    destruct (Z.leb_spec 0 n), (Z.leb_spec n 100); simpl; lia.
  - intros n Hn Hin. rewrite (parseMigrationPercent_Atoi _ _ Hn).
    destruct (Z.leb_spec 0 n), (Z.leb_spec n 100); simpl; lia.
  - apply parseMigrationPercent_range.
  - apply parseMigrationPercent_range.
  - intros n Hrange.
    apply parseMigrationPercent_Atoi, GoFacts.Atoi_Itoa, Hrange.
  - intros env config logs. unfold loadConfig, parseURL.
    destruct (url_Parse (getEnv env "MONOLITH_URL" _)); [|discriminate].
    destruct (url_Parse (getEnv env "MOVIES_SERVICE_URL" _)); [|discriminate].
    destruct (url_Parse (getEnv env "EVENTS_SERVICE_URL" _)); [|discriminate].
    pose proof (parseMigrationPercent_range
                  (getEnv env "MOVIES_MIGRATION_PERCENT" "0")) as Hrange.
    destruct (parseMigrationPercent _) as [percent lines]. simpl in *.
    intros [= <- _]. simpl. split; [reflexivity|exact Hrange].
  - intros env monoURL movURL evtURL Hmono Hmov Hevt.
    unfold loadConfig, parseURL. rewrite Hmono, Hmov, Hevt.
    destruct (parseMigrationPercent _) as [percent lines]. simpl.
    eauto.
  - intros config r Hgate. now rewrite (shouldRouteToMovies_enabled _ _ Hgate).
Qed.

End WithURL.

Lemma parseMigrationPercent_coerces_witness :
  fst (parseMigrationPercent "many") = 0
  /\ fst (parseMigrationPercent "150") = 0
  /\ fst (parseMigrationPercent "-1") = 0
  /\ fst (parseMigrationPercent "42") = 42.
Proof.
  repeat apply conj.
  - apply (proj1 (parseMigrationPercent_coerces string inl "many")).
    reflexivity.
  - apply (proj1 (proj2 (parseMigrationPercent_coerces string inl "150")))
      with (n := 150); [reflexivity | lia].
  - apply (proj1 (proj2 (parseMigrationPercent_coerces string inl "-1")))
      with (n := -1); [reflexivity | lia].
  - apply (proj1 (proj2 (proj2
             (parseMigrationPercent_coerces string inl "42"))))
      with (n := 42); [reflexivity | lia].
Defined.

Lemma routeRequest_movies_gradual_witness :
  fst (routeRequest (sample_config true 50) "/api/movies/7" (sample_source 42))
  = (createReverseProxy "http://localhost:8081", "movies-service")
  <-> 42 < 50.
Proof.
  apply (routeRequest_movies_gradual string (sample_config true 50)
           "/api/movies/7" (sample_source 42));
    [reflexivity | reflexivity | vm_compute; split; congruence].
Defined.

Lemma routeRequest_movies_disabled_witness :
  routeRequest (sample_config false 100) "/api/movies" (sample_source 3)
  = ((createReverseProxy "http://localhost:8080", "monolith"), sample_source 3).
Proof.
  apply (routeRequest_movies_disabled string (sample_config false 100)
           "/api/movies" (sample_source 3)); reflexivity.
Defined.

Lemma routeRequest_events_and_default_witness :
  routeRequest (sample_config true 100) "/api/users/1" (sample_source 3)
  = ((createReverseProxy "http://localhost:8080", "monolith"), sample_source 3)
  /\ routeRequest (sample_config true 100) "/api/events/movie" (sample_source 3)
     = ((createReverseProxy "http://localhost:8082", "events-service"),
        sample_source 3).
Proof.
  split.
  - apply (routeRequest_events_and_default string (sample_config true 100)
             "/api/users/1" (sample_source 3)); reflexivity.
  - apply (routeRequest_events_and_default string (sample_config true 100)
             "/api/events/movie" (sample_source 3)); reflexivity.
Defined.

(** ** Loading the configuration *)

Section Loading.
Variable URL : Type.
Variable url_Parse : string -> URL + string.

(** X1. Every setting of the loaded configuration is the variable of the
    environment when it is set (be it to the empty string) and the default
    otherwise; gradual migration is on for the exact value [true] only. *)
Theorem loadConfig_reads_environment
    (env : gmap string string) (config : ProxyConfig URL)
    (logs : list string) :
  loadConfig url_Parse env = Started config logs ->
  Port config = default "8000" (env !! "PORT")
  /\ (GradualMigration config = true
      <-> env !! "GRADUAL_MIGRATION" = Some "true")
  /\ url_Parse (default "http://localhost:8080" (env !! "MONOLITH_URL"))
     = inl (MonolithURL config)
  /\ url_Parse (default "http://localhost:8081" (env !! "MOVIES_SERVICE_URL"))
     = inl (MoviesServiceURL config)
  /\ url_Parse (default "http://localhost:8082" (env !! "EVENTS_SERVICE_URL"))
     = inl (EventsServiceURL config).
Proof.
  unfold loadConfig, parseURL, getEnv, os_LookupEnv.
  change (match env !! "MONOLITH_URL" with
          | Some value => value | None => "http://localhost:8080" end)
    with (default "http://localhost:8080" (env !! "MONOLITH_URL")).
  change (match env !! "MOVIES_SERVICE_URL" with
          | Some value => value | None => "http://localhost:8081" end)
    with (default "http://localhost:8081" (env !! "MOVIES_SERVICE_URL")).
  change (match env !! "EVENTS_SERVICE_URL" with
          | Some value => value | None => "http://localhost:8082" end)
    with (default "http://localhost:8082" (env !! "EVENTS_SERVICE_URL")).
  destruct (url_Parse (default _ (env !! "MONOLITH_URL"))) as [mono|];
    [|discriminate].
  destruct (url_Parse (default _ (env !! "MOVIES_SERVICE_URL"))) as [mov|];
    [|discriminate].
  destruct (url_Parse (default _ (env !! "EVENTS_SERVICE_URL"))) as [evt|];
    [|discriminate].
  destruct (parseMigrationPercent _) as [percent lines]. simpl.
  intros [= <- _]. cbn [Port GradualMigration MonolithURL MoviesServiceURL
                         EventsServiceURL].
  repeat split; try reflexivity.
  - destruct (env !! "GRADUAL_MIGRATION") as [value|]; [|discriminate].
    intros Heq. apply String.eqb_eq in Heq. now subst.
  - intros ->. reflexivity.
Qed.

(** X2. Start-up ends at the first of the three addresses, in the order
    monolith, movies, events, that does not parse: one line naming its
    variable is logged, and the percentage is not looked at. *)
Theorem loadConfig_aborts_on_first_bad_address (env : gmap string string) :
  (forall err,
     url_Parse (getEnv env "MONOLITH_URL" "http://localhost:8080") = inr err ->
     loadConfig url_Parse env
     = Aborted ["Ошибка парсинга MONOLITH_URL: " ++ err])
  /\ (forall monoURL err,
       url_Parse (getEnv env "MONOLITH_URL" "http://localhost:8080")
         = inl monoURL ->
       url_Parse (getEnv env "MOVIES_SERVICE_URL" "http://localhost:8081")
         = inr err ->
       loadConfig url_Parse env
       = Aborted ["Ошибка парсинга MOVIES_SERVICE_URL: " ++ err])
  /\ (forall monoURL movURL err,
       url_Parse (getEnv env "MONOLITH_URL" "http://localhost:8080")
         = inl monoURL ->
       url_Parse (getEnv env "MOVIES_SERVICE_URL" "http://localhost:8081")
         = inl movURL ->
       url_Parse (getEnv env "EVENTS_SERVICE_URL" "http://localhost:8082")
         = inr err ->
       loadConfig url_Parse env
       = Aborted ["Ошибка парсинга EVENTS_SERVICE_URL: " ++ err]).
Proof.
  repeat apply conj.
  - intros err Hmono. unfold loadConfig, parseURL. now rewrite Hmono.
  - intros monoURL err Hmono Hmov. unfold loadConfig, parseURL.
    now rewrite Hmono, Hmov.
  - intros monoURL movURL err Hmono Hmov Hevt. unfold loadConfig, parseURL.
    now rewrite Hmono, Hmov, Hevt.
Qed.

(** X3. parseMigrationPercent logs nothing exactly when it accepts its input,
    and otherwise logs the one warning that quotes the input and returns
    0; these lines are all that a successful [loadConfig] logs. *)
Theorem parseMigrationPercent_warns_iff_coerced (percentStr : string) :
  (snd (parseMigrationPercent percentStr) = []
   <-> exists n, strconv_Atoi percentStr = Some n /\ 0 <= n <= 100)
  /\ (snd (parseMigrationPercent percentStr) = []
      \/ parseMigrationPercent percentStr
         = (0, ["Некорректное значение MOVIES_MIGRATION_PERCENT '"
                  ++ percentStr ++ "', используется 0"]))
  /\ (forall env (config : ProxyConfig URL) logs,
       loadConfig url_Parse env = Started config logs ->
       logs = snd (parseMigrationPercent
                     (getEnv env "MOVIES_MIGRATION_PERCENT" "0"))).
Proof.
  split; [|split].
  - unfold parseMigrationPercent.
    destruct (strconv_Atoi percentStr) as [n|].
    + destruct (Z.ltb_spec n 0) as [Hlo|Hlo],
        (Z.gtb_spec n 100) as [Hhi|Hhi]; simpl;
        (split;
         [intros Hlines;
          first [discriminate Hlines|exists n; split; [reflexivity|lia]]
         |intros (m & [= <-] & Hm); first [reflexivity|lia]]).
    + simpl. split; [discriminate|]. intros (n & Hn & _). discriminate.
  - unfold parseMigrationPercent.
    destruct (strconv_Atoi percentStr) as [n|]; [|now right].
    destruct ((n <? 0) || (n >? 100)); [now right|now left].
  - intros env config logs. unfold loadConfig, parseURL.
    destruct (url_Parse (getEnv env "MONOLITH_URL" _)); [|discriminate].
    destruct (url_Parse (getEnv env "MOVIES_SERVICE_URL" _)); [|discriminate].
    destruct (url_Parse (getEnv env "EVENTS_SERVICE_URL" _)); [|discriminate].
    destruct (parseMigrationPercent _) as [percent lines]. simpl.
    now intros [= _ <-].
Qed.

End Loading.

(** ** Routing and the handlers of the gateway *)

Section GatewayFacts.
Variable URL : Type.
Variable config : ProxyConfig URL.

Lemma routeRequest_source (path : string) (r : RandSource) :
  rand_output (snd (routeRequest config path r)) = rand_output r
  /\ rand_calls (snd (routeRequest config path r))
     = (rand_calls r
        + if strings_HasPrefix path "/api/movies" && GradualMigration config
          then 1 else 0)%nat.
Proof.
  unfold routeRequest, shouldRouteToMovies.
  destruct (strings_HasPrefix path "/api/movies"); simpl.
  - destruct (GradualMigration config); simpl.
    + destruct (next_draw r <? MoviesMigrationPercent config); simpl;
        (split; [reflexivity|lia]).
    + split; [reflexivity|lia].
  - destruct (strings_HasPrefix path "/api/events"); simpl;
      (split; [reflexivity|lia]).
Qed.

(** X4. routeRequest takes a draw exactly for a path of the movies area while
    gradual migration is on, one draw and no more, and never changes what
    the source will return; its answer is always one of the three pairs of
    an upstream with its own label. *)
Theorem routeRequest_draws_and_targets (path : string) (r : RandSource) :
  rand_output (snd (routeRequest config path r)) = rand_output r
  /\ rand_calls (snd (routeRequest config path r))
     = (rand_calls r
        + if strings_HasPrefix path "/api/movies" && GradualMigration config
          then 1 else 0)%nat
  /\ (fst (routeRequest config path r)
       = (createReverseProxy (MonolithURL config), "monolith")
      \/ fst (routeRequest config path r)
         = (createReverseProxy (MoviesServiceURL config), "movies-service")
      \/ fst (routeRequest config path r)
         = (createReverseProxy (EventsServiceURL config), "events-service")).
Proof.
  destruct (routeRequest_source path r) as [Hout Hcalls].
  split; [exact Hout|]. split; [exact Hcalls|].
  unfold routeRequest, shouldRouteToMovies.
  destruct (strings_HasPrefix path "/api/movies"); simpl.
  - destruct (GradualMigration config); simpl; [|auto].
    destruct (next_draw r <? MoviesMigrationPercent config); simpl; auto.
  - destruct (strings_HasPrefix path "/api/events"); simpl; auto.
Qed.

Lemma gateway_routes_health :
  (gateway_routes config !! "/health" : option (Handler URL))
  = Some healthHandler.
Proof.
  unfold gateway_routes. rewrite lookup_insert_ne by discriminate.
  apply lookup_insert_eq.
Qed.

Lemma gateway_routes_api_health :
  (gateway_routes config !! "/api/health" : option (Handler URL))
  = Some healthHandler.
Proof. unfold gateway_routes. apply lookup_insert_eq. Qed.

Lemma gateway_routes_root :
  (gateway_routes config !! "/" : option (Handler URL))
  = Some (mainHandler config).
Proof.
  unfold gateway_routes. rewrite !lookup_insert_ne by discriminate.
  apply lookup_insert_eq.
Qed.

Lemma gateway_ServeHTTP_other (r : Request) (g : Gateway) :
  URL_Path r <> "/health" -> URL_Path r <> "/api/health" ->
  gateway_ServeHTTP config r g = mainHandler config r g.
Proof.
  intros Hhealth Hapi. unfold gateway_ServeHTTP.
  destruct (decide (URL_Path r = "/")) as [->|Hroot].
  - now rewrite gateway_routes_root.
  - replace (gateway_routes config !! URL_Path r : option (Handler URL))
      with (None : option (Handler URL)).
    + now rewrite gateway_routes_root.
    + unfold gateway_routes.
      rewrite !lookup_insert_ne by congruence. reflexivity.
Qed.

Lemma gateway_ServeHTTP_health (r : Request) (g : Gateway) :
  URL_Path r = "/health" \/ URL_Path r = "/api/health" ->
  gateway_ServeHTTP config r g = healthHandler r g.
Proof.
  intros [Hpath|Hpath]; unfold gateway_ServeHTTP; rewrite Hpath.
  - now rewrite gateway_routes_health.
  - now rewrite gateway_routes_api_health.
Qed.

(** What mainHandler leaves behind, in terms of routeRequest. *)
Lemma mainHandler_run (r : Request) (g : Gateway) :
  mainHandler config r g
  = (Relayed (fst (fst (routeRequest config (URL_Path r) (source g)))) r,
     {| source := snd (routeRequest config (URL_Path r) (source g));
        now_RFC3339 := now_RFC3339 g;
        logged :=
          (logged g
           ++ [("Входящий запрос: " ++ Method r ++ " " ++ URL_Path r)%string;
               ("Маршрутизация к "
                ++ snd (fst (routeRequest config (URL_Path r) (source g))))
                 %string])%list |}).
Proof.
  unfold mainHandler. cbn [gateway_log source].
  destruct (routeRequest config (URL_Path r) (source g))
    as [[proxy label] source'].
  cbn [fst snd logged now_RFC3339 source gateway_log].
  now rewrite <- app_assoc.
Qed.

(** X5. The two health paths are answered by the gateway itself, 200 with the
    hand-made JSON text, for every method: the request is not passed to
    any upstream, nothing is logged and no draw is taken. *)
Theorem gateway_health_is_local (r : Request) (g : Gateway) :
  URL_Path r = "/health" \/ URL_Path r = "/api/health" ->
  gateway_ServeHTTP config r g
  = (Local 200 "application/json"
       ("{" ++ quoted "status" ++ ":" ++ quoted "healthy" ++ ","
            ++ quoted "service" ++ ":" ++ quoted "strangler-fig-proxy" ++ ","
            ++ quoted "datetime" ++ ":" ++ quoted (now_RFC3339 g) ++ "}"),
     g).
Proof.
  intros Hpath. now rewrite (gateway_ServeHTTP_health _ _ Hpath).
Qed.


Lemma gateway_ServeHTTP_source (r : Request) (g : Gateway) :
  rand_output (source (snd (gateway_ServeHTTP config r g)))
  = rand_output (source g)
  /\ rand_calls (source (snd (gateway_ServeHTTP config r g)))
     = (rand_calls (source g)
        + if strings_HasPrefix (URL_Path r) "/api/movies"
             && GradualMigration config
          then 1 else 0)%nat.
Proof.
  destruct (decide (URL_Path r = "/health")) as [Hhealth|Hhealth].
  { rewrite gateway_ServeHTTP_health, Hhealth by auto. simpl. split; [|lia].
    reflexivity. }
  destruct (decide (URL_Path r = "/api/health")) as [Hapi|Hapi].
  { rewrite gateway_ServeHTTP_health, Hapi by auto. simpl. split; [|lia].
    reflexivity. }
  rewrite (gateway_ServeHTTP_other _ _ Hhealth Hapi), mainHandler_run.
  apply routeRequest_source.
Qed.


End GatewayFacts.

Lemma loadConfig_reads_environment_witness :
  GradualMigration (sample_config false 30) = true
  <-> (<["GRADUAL_MIGRATION" := "TRUE"]>
         (<["MOVIES_MIGRATION_PERCENT" := "30"]> ∅) : gmap string string)
      !! "GRADUAL_MIGRATION" = Some "true".
Proof.
  apply (loadConfig_reads_environment string inl
           (<["GRADUAL_MIGRATION" := "TRUE"]>
              (<["MOVIES_MIGRATION_PERCENT" := "30"]> ∅))
           (sample_config false 30) []).
  vm_compute. reflexivity.
Defined.

Lemma loadConfig_aborts_on_first_bad_address_witness :
  loadConfig (fun raw => if String.eqb raw "" then inr "empty url" else inl raw)
    (<["MOVIES_SERVICE_URL" := ""]>
       (<["MOVIES_MIGRATION_PERCENT" := "many"]> ∅))
  = Aborted ["Ошибка парсинга MOVIES_SERVICE_URL: empty url"].
Proof.
  apply (proj1 (proj2 (loadConfig_aborts_on_first_bad_address string
                         (fun raw => if String.eqb raw ""
                                     then inr "empty url" else inl raw)
                         (<["MOVIES_SERVICE_URL" := ""]>
                            (<["MOVIES_MIGRATION_PERCENT" := "many"]> ∅)))))
    with (monoURL := "http://localhost:8080"); reflexivity.
Defined.

Lemma gateway_health_is_local_witness :
  fst (gateway_ServeHTTP (sample_config true 100)
         {| Method := "DELETE"; URL_Path := "/api/health"; Payload := "" |}
         {| source := sample_source 3; now_RFC3339 := "2024-05-01T10:00:00Z";
            logged := [] |})
  = Local 200 "application/json"
      ("{" ++ quoted "status" ++ ":" ++ quoted "healthy" ++ ","
           ++ quoted "service" ++ ":" ++ quoted "strangler-fig-proxy" ++ ","
           ++ quoted "datetime" ++ ":" ++ quoted "2024-05-01T10:00:00Z"
           ++ "}").
Proof.
  rewrite (gateway_health_is_local string (sample_config true 100)
             {| Method := "DELETE"; URL_Path := "/api/health"; Payload := "" |}
             {| source := sample_source 3;
                now_RFC3339 := "2024-05-01T10:00:00Z"; logged := [] |}).
  - reflexivity.
  - right. reflexivity.
Defined.


End ProxyProofs.

(** * Properties of the events service *)

Module EventsProofs.
Import Go Events.

Section WithRuntime.
Context `{RT : Runtime}.

Lemma write_attempts_app (h1 h2 : list effect) :
  write_attempts (h1 ++ h2) = (write_attempts h1 + write_attempts h2)%nat.
Proof.
  induction h1 as [|e h1 IH]; [reflexivity|].
  destruct e; simpl; rewrite IH; reflexivity.
Qed.

Lemma published_app (h1 h2 : list effect) :
  published (h1 ++ h2) = (published h1 ++ published h2)%list.
Proof.
  induction h1 as [|e h1 IH]; [reflexivity|].
  destruct e as [| |wr m [err|]|]; simpl; rewrite IH; reflexivity.
Qed.

Lemma handleEvent_not_post (topic : string) (r : Request) (w : World) :
  Method r <> MethodPost ->
  handleEvent topic r w =
    (http_Error (TextLine "Метод не поддерживается") StatusMethodNotAllowed, w).
Proof.
  intros Hmethod. unfold handleEvent.
  destruct (String.eqb_spec (Method r) MethodPost) as [Heq|_]; [|reflexivity].
  contradiction.
Qed.

Lemma routes_movie :
  routes !! "/api/events/movie" = Some (handleEvent movieTopic).
Proof.
  unfold routes. rewrite !lookup_insert_ne by discriminate.
  apply lookup_insert_eq.
Qed.

Lemma routes_user :
  routes !! "/api/events/user" = Some (handleEvent userTopic).
Proof.
  unfold routes. rewrite !lookup_insert_ne by discriminate.
  apply lookup_insert_eq.
Qed.

Lemma routes_payment :
  routes !! "/api/events/payment" = Some (handleEvent paymentTopic).
Proof.
  unfold routes. rewrite !lookup_insert_ne by discriminate.
  apply lookup_insert_eq.
Qed.

Lemma routes_health : routes !! "/api/events/health" = Some healthCheckHandler.
Proof. unfold routes. apply lookup_insert_eq. Qed.

(** C6. A request to one of the three event endpoints whose method is not
    POST is answered 405, and the process is left exactly as it was: no
    body was handed to the decoder, nothing was written to the broker. *)
Theorem handleEvent_method_not_allowed (r : Request) (w : World) :
  In (Path r)
     ["/api/events/movie"; "/api/events/user"; "/api/events/payment"] ->
  Method r <> MethodPost ->
  ServeHTTP r w =
    (http_Error (TextLine "Метод не поддерживается") StatusMethodNotAllowed, w)
  /\ StatusCode (fst (ServeHTTP r w)) = 405
  /\ bodies_decoded (history (snd (ServeHTTP r w))) = bodies_decoded (history w)
  /\ write_attempts (history (snd (ServeHTTP r w)))
     = write_attempts (history w).
Proof.
  intros Hpath Hmethod.
  assert (Hserve : ServeHTTP r w =
            (http_Error (TextLine "Метод не поддерживается")
               StatusMethodNotAllowed, w)).
  { unfold ServeHTTP.
    destruct Hpath as [<-|[<-|[<-|[]]]].
    - rewrite routes_movie. now apply handleEvent_not_post.
    - rewrite routes_user. now apply handleEvent_not_post.
    - rewrite routes_payment. now apply handleEvent_not_post. }
  rewrite Hserve. repeat split.
Qed.

(** The decoder on a few bodies. *)
Example Decode_fills_what_is_there :
  Decode (FirstValue (JObject [("TITLE", JString "Dune");
                               ("user_id", JNumber "42");
                               ("rating", JNumber "5");
                               ("user_id", JNull)]))
         (OfMovie {| MovieID := 0; Title := ""; Action := ""; UserID := 0 |})
  = inr (OfMovie {| MovieID := 0; Title := "Dune"; Action := "";
                    UserID := 42 |}).
Proof. reflexivity. Qed.

Example Decode_null_document :
  Decode (FirstValue JNull)
         (OfMovie {| MovieID := 0; Title := ""; Action := ""; UserID := 0 |})
  = inr (OfMovie {| MovieID := 0; Title := ""; Action := ""; UserID := 0 |}).
Proof. reflexivity. Qed.

Example Decode_wrong_kind :
  Decode (FirstValue (JObject [("movie_id", JString "1")]))
         (OfMovie {| MovieID := 0; Title := ""; Action := ""; UserID := 0 |})
  = inl (UnmarshalTypeError "string" "int")
  /\ Decode (FirstValue (JObject [("movie_id", JNumber "1.5")]))
            (OfMovie {| MovieID := 0; Title := ""; Action := "";
                        UserID := 0 |})
     = inl (UnmarshalTypeError "number 1.5" "int")
  /\ Decode (FirstValue (JArray []))
            (OfMovie {| MovieID := 0; Title := ""; Action := "";
                        UserID := 0 |})
     = inl (UnmarshalTypeError "array" "MovieEvent").
Proof. repeat split; reflexivity. Qed.

(** A body that is not JSON is answered 400 and nothing is written. *)
Example handleEvent_bad_stream (w : World) :
  handleEvent movieTopic
    {| Method := "POST"; Path := "/api/events/movie";
       Body := BadStream "unexpected EOF" |} w
  = (http_Error (ErrorLine (SyntaxError "unexpected EOF")) StatusBadRequest,
     record_effect (BodyDecoded (BadStream "unexpected EOF")) w).
Proof. reflexivity. Qed.

Lemma json_Marshal_total (eventData : EventData) :
  exists doc, json_Marshal eventData = inr doc.
Proof. destruct eventData; eexists; reflexivity. Qed.

Lemma getKafkaWriter_broker_reply (w : World) :
  broker_reply (snd (getKafkaWriter w)) = broker_reply w.
Proof. unfold getKafkaWriter. destruct (kafkaWriter w); reflexivity. Qed.

Lemma getKafkaWriter_write_attempts (w : World) :
  write_attempts (history (snd (getKafkaWriter w)))
  = write_attempts (history w).
Proof.
  unfold getKafkaWriter. destruct (kafkaWriter w); [reflexivity|].
  simpl. rewrite write_attempts_app. simpl. lia.
Qed.

Lemma getKafkaWriter_published (w : World) :
  published (history (snd (getKafkaWriter w))) = published (history w).
Proof.
  unfold getKafkaWriter. destruct (kafkaWriter w); [reflexivity|].
  simpl. rewrite published_app. simpl. apply app_nil_r.
Qed.

Lemma parseEventData_world (topic : string) (r : Request) (w : World)
    (eventData : EventData) :
  fst (parseEventData topic r w) = inr eventData ->
  snd (parseEventData topic r w) = record_effect (BodyDecoded (Body r)) w.
Proof.
  unfold parseEventData.
  destruct (String.eqb topic movieTopic); [reflexivity|].
  destruct (String.eqb topic userTopic); [reflexivity|].
  destruct (String.eqb topic paymentTopic); [reflexivity|].
  discriminate.
Qed.

(** C7. For a POST request whose body decodes, the handler makes one call
    of [WriteMessages] with the event's document addressed to the topic.
    When the broker answers with an error, the response is 500, the error
    is logged and no second call is made; when the broker takes the
    message, the response is 201 with the JSON object holding ["status":
    "success"] and a ["message"] field. *)
Theorem handleEvent_publish_outcome
    (topic : string) (r : Request) (w : World) (eventData : EventData) :
  Method r = MethodPost ->
  fst (parseEventData topic r w) = inr eventData ->
  exists doc : json,
    json_Marshal eventData = inr doc
    /\ let w1 := snd (parseEventData topic r w) in
       let wr := fst (getKafkaWriter w1) in
       let w2 := snd (getKafkaWriter w1) in
       let m := {| Topic := topic; Value := doc |} in
       (forall err, broker_reply w wr m = Some err ->
          handleEvent topic r w =
            (http_Error (TextLine "Ошибка обработки события")
                        StatusInternalServerError,
             log_Printf "Ошибка отправки в Kafka: %v" [ArgError err]
               (record_effect (WriteAttempt wr m (Some err)) w2))
          /\ StatusCode (fst (handleEvent topic r w)) = 500
          /\ write_attempts (history (snd (handleEvent topic r w)))
             = S (write_attempts (history w))
          /\ published (history (snd (handleEvent topic r w)))
             = published (history w))
       /\ (broker_reply w wr m = None ->
           fst (handleEvent topic r w) =
             {| StatusCode := 201;
                Header := <["Content-Type" := "application/json"]> ∅;
                ResponseText :=
                  JSONDocument
                    (JObject
                       [("message", JString "Событие успешно обработано");
                        ("status", JString "success")]) |}
           /\ write_attempts (history (snd (handleEvent topic r w)))
              = S (write_attempts (history w))
           /\ published (history (snd (handleEvent topic r w)))
              = (published (history w) ++ [m])%list).
Proof.
  intros Hmethod Hparsed.
  destruct (json_Marshal_total eventData) as [doc Hdoc].
  exists doc. split; [exact Hdoc|].
  pose proof (parseEventData_world _ _ _ _ Hparsed) as Hw1.
  intros w1 wr w2 m.
  assert (Hreply : broker_reply w2 = broker_reply w).
  { subst w2 w1. rewrite getKafkaWriter_broker_reply, Hw1. reflexivity. }
  assert (Hattempts : write_attempts (history w2) = write_attempts (history w)).
  { subst w2 w1. rewrite getKafkaWriter_write_attempts, Hw1. simpl.
    rewrite write_attempts_app. simpl. lia. }
  assert (Hpublished : published (history w2) = published (history w)).
  { subst w2 w1. rewrite getKafkaWriter_published, Hw1. simpl.
    rewrite published_app. simpl. apply app_nil_r. }
  assert (Hrun : forall result, broker_reply w wr m = result ->
            handleEvent topic r w =
              match result with
              | Some err =>
                  (http_Error (TextLine "Ошибка обработки события")
                              StatusInternalServerError,
                   log_Printf "Ошибка отправки в Kafka: %v" [ArgError err]
                     (record_effect (WriteAttempt wr m result) w2))
              | None =>
                  sendSuccessResponse topic eventData
                    (record_effect (WriteAttempt wr m result) w2)
              end).
  { intros result Hresult. unfold handleEvent.
    rewrite Hmethod. cbn [String.eqb negb].
    replace (String.eqb MethodPost MethodPost) with true by reflexivity.
    cbn [negb].
    destruct (parseEventData topic r w) as [parsed w1'] eqn:Hparse.
    simpl in Hparsed, w1. subst parsed.
    unfold sendToKafka. rewrite Hdoc.
    subst wr w2 w1.
    destruct (getKafkaWriter w1') as [wr' w2'] eqn:Hget.
    cbn [fst snd] in *. unfold WriteMessages.
    rewrite Hreply. subst m. rewrite Hresult.
    destruct result; reflexivity. }
  split.
  - intros err Herr. rewrite (Hrun _ Herr). cbn [fst snd].
    repeat split.
    + unfold log_Printf, record_effect. cbn [history].
      rewrite !write_attempts_app. simpl. lia.
    + unfold log_Printf, record_effect. cbn [history].
      rewrite !published_app, Hpublished. simpl. now rewrite !app_nil_r.
  - intros Hok. rewrite (Hrun _ Hok). unfold sendSuccessResponse.
    cbn [fst snd]. repeat split.
    + unfold log_Printf, record_effect. cbn [history].
      rewrite !write_attempts_app. simpl. lia.
    + unfold log_Printf, record_effect. cbn [history].
      rewrite !published_app, Hpublished. simpl. now rewrite !app_nil_r.
Qed.

(** C1 (what the code does on the example of the specification). A POST
    to [/api/events/movie] whose body is the object with only a title,
    sent to the started process while the broker takes every message, is
    answered 201, and the event with its three missing fields at their
    zero values is published on [movie-events]. The same happens on each
    of the three endpoints with the empty object: 201, and an event made
    of zero values only is published. *)
Theorem title_only_movie_is_published (env : gmap string string) (now : Time) :
  let w := started_world env now None in
  (StatusCode (fst (ServeHTTP title_only_request w)) = 201
   /\ published (history (snd (ServeHTTP title_only_request w)))
      = [{| Topic := "movie-events";
            Value := JObject [("movie_id", JNumber "0");
                              ("title", JString "Dune");
                              ("action", JString "");
                              ("user_id", JNumber "0")] |}])
  /\ (StatusCode (fst (ServeHTTP (empty_object_request "/api/events/movie") w))
      = 201
      /\ published
           (history (snd (ServeHTTP (empty_object_request "/api/events/movie")
                            w)))
         = [{| Topic := "movie-events";
               Value := JObject [("movie_id", JNumber "0");
                                 ("title", JString "");
                                 ("action", JString "");
                                 ("user_id", JNumber "0")] |}])
  /\ (StatusCode (fst (ServeHTTP (empty_object_request "/api/events/user") w))
      = 201
      /\ published
           (history (snd (ServeHTTP (empty_object_request "/api/events/user")
                            w)))
         = [{| Topic := "user-events";
               Value := JObject [("user_id", JNumber "0");
                                 ("username", JString "");
                                 ("action", JString "");
                                 ("timestamp",
                                  JString (time_MarshalJSON time_zero))] |}])
  /\ (StatusCode
        (fst (ServeHTTP (empty_object_request "/api/events/payment") w)) = 201
      /\ published
           (history (snd (ServeHTTP
                            (empty_object_request "/api/events/payment") w)))
         = [{| Topic := "payment-events";
               Value := JObject [("payment_id", JNumber "0");
                                 ("user_id", JNumber "0");
                                 ("amount",
                                  JNumber (float_MarshalJSON float_zero));
                                 ("status", JString "");
                                 ("timestamp",
                                  JString (time_MarshalJSON time_zero))] |}]).
Proof.
  intros w. unfold ServeHTTP.
  cbn [Path title_only_request empty_object_request].
  rewrite routes_movie, routes_user, routes_payment.
  repeat split; reflexivity.
Qed.

(** C10. The health handler answers every request, whatever its method,
    with 200 and the JSON object holding ["status": true], ["service":
    "events-service"] and the current time in UTC, and changes nothing; it
    is registered as it is under [/api/events/health], so a request to
    that path gets this answer for every method. *)
Theorem healthCheckHandler_any_method :
  (forall (r : Request) (w : World),
     healthCheckHandler r w =
       ({| StatusCode := 200;
           Header := <["Content-Type" := "application/json"]> ∅;
           ResponseText :=
             JSONDocument
               (JObject [("service", JString "events-service");
                         ("status", JBool true);
                         ("timestamp",
                          JString (time_MarshalJSON
                                     (time_UTC (wall_clock w))))]) |}, w))
  /\ routes !! "/api/events/health" = Some healthCheckHandler
  /\ (forall (method : string) (body : BodyStream) (w : World),
       let r := {| Method := method; Path := "/api/events/health";
                   Body := body |} in
       ServeHTTP r w = healthCheckHandler r w
       /\ StatusCode (fst (ServeHTTP r w)) = 200).
Proof.
  split; [reflexivity|]. split; [apply routes_health|].
  intros method body w r. unfold ServeHTTP. subst r. cbn [Path].
  rewrite routes_health. split; reflexivity.
Qed.

Section Consumer.
Variable env : gmap string string.
Variable topic : string.
Variable incoming : nat -> error + Delivery.

Lemma consumeTopic_run_S (n : nat) :
  consumeTopic_run env topic incoming (S n)
  = consumeTopic_step env topic incoming
      (consumeTopic_run env topic incoming n).
Proof. reflexivity. Qed.

(** While the reads succeed the goroutine stays in its loop, one read and
    one line per turn. *)
Lemma consumeTopic_running (ms : list Delivery) (j : nat) :
  (forall i m, ms !! i = Some m -> incoming i = inr m) ->
  (j <= List.length ms)%nat ->
  consumeTopic_run env topic incoming (S j)
  = {| phase := Running;
       reader := Some (reader_config env topic);
       reads_made := j;
       lines := started_line topic :: map consumed_line (take j ms);
       wg_done := false |}.
Proof.
  intros Hms. induction j as [|j IH]; intros Hj.
  - rewrite take_0. reflexivity.
  - rewrite consumeTopic_run_S, IH by lia.
    destruct (lookup_lt_is_Some_2 ms j ltac:(lia)) as [m Hm].
    unfold consumeTopic_step. cbn [phase reads_made].
    rewrite (Hms _ _ Hm). cbn [lines reader wg_done].
    rewrite (take_S_r _ _ _ Hm), map_app. reflexivity.
Qed.

(** A goroutine that has left the loop takes no further step. *)
Lemma consumeTopic_terminated_stays (n k : nat) :
  phase (consumeTopic_run env topic incoming n) = Terminated ->
  consumeTopic_run env topic incoming (n + k)
  = consumeTopic_run env topic incoming n.
Proof.
  intros Hn. induction k as [|k IH].
  - now rewrite Nat.add_0_r.
  - rewrite Nat.add_succ_r, consumeTopic_run_S, IH.
    unfold consumeTopic_step. now rewrite Hn.
Qed.

(** C8. When the reads of a consumer succeed [ms] and the next one fails,
    the goroutine leaves its loop at that failure: from then on and for
    ever it is terminated, having called [ReadMessage] once per message
    and once for the failure, logged the start line, one line per message
    and the error, closed its reader and told the wait group. Whatever the
    broker would have delivered afterwards is never read. In general a
    terminated consumer never changes again. *)
Theorem consumeTopic_stops_at_first_error (ms : list Delivery) (err : error) :
  (forall i m, ms !! i = Some m -> incoming i = inr m) ->
  incoming (List.length ms) = inl err ->
  (forall n, (List.length ms + 2 <= n)%nat ->
     consumeTopic_run env topic incoming n
     = {| phase := Terminated;
          reader := None;
          reads_made := S (List.length ms);
          lines := started_line topic
                   :: (map consumed_line ms ++ [read_error_line topic err])%list;
          wg_done := true |})
  /\ (forall n k,
       phase (consumeTopic_run env topic incoming n) = Terminated ->
       consumeTopic_run env topic incoming (n + k)
       = consumeTopic_run env topic incoming n).
Proof.
  intros Hms Herr. split; [|apply consumeTopic_terminated_stays].
  assert (Hstop : consumeTopic_run env topic incoming (List.length ms + 2)
            = {| phase := Terminated;
                 reader := None;
                 reads_made := S (List.length ms);
                 lines := started_line topic
                          :: (map consumed_line ms
                              ++ [read_error_line topic err])%list;
                 wg_done := true |}).
  { replace (List.length ms + 2)%nat with (S (S (List.length ms))) by lia.
    rewrite consumeTopic_run_S, (consumeTopic_running ms) by (auto; lia).
    unfold consumeTopic_step. cbn [phase reads_made]. rewrite Herr.
    cbn [lines]. rewrite firstn_all. reflexivity. }
  intros n Hn.
  replace n with ((List.length ms + 2) + (n - (List.length ms + 2)))%nat by lia.
  rewrite consumeTopic_terminated_stays; rewrite Hstop; reflexivity.
Qed.

End Consumer.

Section Race.
Variable env : gmap string string.

Lemma race_inv_start : race_inv [] shared_start.
Proof.
  split; simpl; try discriminate; try (intros; discriminate); congruence.
Qed.

Lemma race_inv_call (ts : list Point) (sh : Shared) :
  race_inv ts sh -> race_inv (ts ++ [AtDoLoad]) sh.
Proof.
  intros [Hmutex Hdone Hinit Hstore Hpast Hret Hpend]. split.
  - intros i pt [[_ Hi]|[_ <-]]%lookup_snoc_Some Hpt; [eauto|discriminate].
  - exact Hdone.
  - intros i [[_ Hi]|[_ [=]]]%lookup_snoc_Some. eauto.
  - intros i [[_ Hi]|[_ [=]]]%lookup_snoc_Some. eauto.
  - intros i pt [[_ Hi]|[_ <-]]%lookup_snoc_Some Hpt; [eauto|discriminate].
  - intros i result [[_ Hi]|[_ [=]]]%lookup_snoc_Some. eauto.
  - intros Hbuilt. destruct (Hpend Hbuilt) as [?|[i Hi]]; [now left|right].
    exists i. now apply lookup_app_l_Some.
Qed.

(** Two goroutines that hold the mutex are the same goroutine. *)
Lemma race_inv_exclusion (ts : list Point) (sh : Shared) (i j : nat)
    (pt pt' : Point) :
  race_inv ts sh ->
  ts !! i = Some pt -> holds_mutex pt = true ->
  ts !! j = Some pt' -> holds_mutex pt' = true ->
  i = j /\ pt = pt'.
Proof.
  intros Hinv Hi Hpt Hj Hpt'.
  pose proof (inv_mutex _ _ Hinv _ _ Hi Hpt) as Hmi.
  pose proof (inv_mutex _ _ Hinv _ _ Hj Hpt') as Hmj.
  assert (i = j) as -> by congruence. split; congruence.
Qed.

Ltac other_goroutine H :=
  let Hne := fresh "Hne" in
  apply list_lookup_insert_Some in H;
  destruct H as [(<- & ? & ?)|(Hne & H)].

Lemma race_inv_move (ts : list Point) (sh sh' : Shared) (i : nat)
    (pt pt' : Point) :
  race_inv ts sh ->
  ts !! i = Some pt ->
  goroutine_step env i pt sh = Some (pt', sh') ->
  race_inv (<[i := pt']> ts) sh'.
Proof.
  intros Hinv Hi Hstep.
  pose proof Hinv as [Hmutex Hdone Hinit Hstore Hpast Hret Hpend].
  destruct pt; simpl in Hstep.
  - (* the first load of done *)
    injection Hstep as <- <-. split.
    + intros j q Hj Hq. other_goroutine Hj; [|eauto].
      subst q. destruct (once_done sh); discriminate.
    + exact Hdone.
    + intros j Hj. other_goroutine Hj; [|eauto].
      destruct (once_done sh); discriminate.
    + intros j Hj. other_goroutine Hj; [|eauto].
      destruct (once_done sh); discriminate.
    + intros j q Hj Hq. other_goroutine Hj; [|eauto].
      subst q. destruct (once_done sh); [reflexivity|discriminate].
    + intros j result Hj. other_goroutine Hj; [|eauto].
      destruct (once_done sh); discriminate.
    + intros Hbuilt. destruct (Hpend Hbuilt) as [?|[j Hj]]; [now left|right].
      exists j. rewrite list_lookup_insert_ne; [exact Hj|congruence].
  - (* taking the mutex *)
    destruct (once_m sh) eqn:Hfree; [discriminate|].
    injection Hstep as <- <-. split; simpl.
    + intros j q Hj Hq. other_goroutine Hj; [reflexivity|].
      specialize (Hmutex _ _ Hj Hq). congruence.
    + exact Hdone.
    + intros j Hj. other_goroutine Hj; [discriminate|eauto].
    + intros j Hj. other_goroutine Hj; [discriminate|eauto].
    + intros j q Hj Hq. other_goroutine Hj; [subst q; discriminate|eauto].
    + intros j result Hj. other_goroutine Hj; [discriminate|eauto].
    + intros Hbuilt. destruct (Hpend Hbuilt) as [?|[j Hj]]; [now left|right].
      exists j. rewrite list_lookup_insert_ne; [exact Hj|congruence].
  - (* the load of done under the mutex *)
    injection Hstep as <- <-.
    assert (Hempty : once_done sh = false -> built sh = []).
    { intros Hnot. destruct (built sh) as [|wr l] eqn:Hbuilt; [reflexivity|].
      destruct Hpend as [Hd|[j Hj]]; [discriminate|congruence|].
      destruct (race_inv_exclusion _ _ _ _ _ _ Hinv Hi eq_refl Hj eq_refl).
      discriminate. }
    split.
    + intros j q Hj Hq. other_goroutine Hj; [|eauto].
      apply (Hmutex _ _ Hi eq_refl).
    + exact Hdone.
    + intros j Hj. other_goroutine Hj; [|eauto].
      destruct (once_done sh) eqn:Hd; [discriminate|]. auto.
    + intros j Hj. other_goroutine Hj; [|eauto].
      destruct (once_done sh); discriminate.
    + intros j q Hj Hq. other_goroutine Hj; [|eauto].
      subst q. destruct (once_done sh); [reflexivity|discriminate].
    + intros j result Hj. other_goroutine Hj; [|eauto].
      destruct (once_done sh); discriminate.
    + intros Hbuilt. destruct (Hpend Hbuilt) as [?|[j Hj]]; [now left|right].
      exists j. rewrite list_lookup_insert_ne; [exact Hj|congruence].
  - (* the function given to once.Do *)
    injection Hstep as <- <-.
    destruct (Hinit _ Hi) as [Hnot Hempty].
    assert (Halone : forall j q, i <> j -> ts !! j = Some q ->
              holds_mutex q = false).
    { intros j q Hne Hj. destruct (holds_mutex q) eqn:Hq; [|reflexivity].
      destruct (race_inv_exclusion _ _ _ _ _ _ Hinv Hi eq_refl Hj Hq).
      contradiction. }
    split; simpl.
    + intros j q Hj Hq. other_goroutine Hj; [|eauto].
      apply (Hmutex _ _ Hi eq_refl).
    + congruence.
    + intros j Hj. other_goroutine Hj; [discriminate|].
      specialize (Halone _ _ Hne Hj). discriminate.
    + intros j Hj. rewrite Hempty. eauto.
    + intros j q Hj Hq. other_goroutine Hj; [subst q; discriminate|].
      specialize (Hpast _ _ Hj Hq). congruence.
    + intros j result Hj. other_goroutine Hj; [discriminate|].
      specialize (Hpast _ _ Hj eq_refl). congruence.
    + intros _. right. exists i.
      apply list_lookup_insert_eq. eapply lookup_lt_Some, Hi.
  - (* the deferred store to done *)
    injection Hstep as <- <-. split; simpl.
    + intros j q Hj Hq. other_goroutine Hj; [|eauto].
      apply (Hmutex _ _ Hi eq_refl).
    + intros _. apply (Hstore _ Hi).
    + intros j Hj. other_goroutine Hj; [discriminate|].
      destruct (race_inv_exclusion _ _ _ _ _ _ Hinv Hi eq_refl Hj eq_refl).
      contradiction.
    + intros j Hj. apply (Hstore _ Hi).
    + reflexivity.
    + intros j result Hj. other_goroutine Hj; [discriminate|eauto].
    + intros _. now left.
  - (* the deferred unlock *)
    injection Hstep as <- <-.
    pose proof (Hpast _ _ Hi eq_refl) as Hd.
    split; simpl.
    + intros j q Hj Hq. other_goroutine Hj; [subst q; discriminate|].
      destruct (race_inv_exclusion _ _ _ _ _ _ Hinv Hi eq_refl Hj Hq).
      contradiction.
    + exact Hdone.
    + intros j Hj. other_goroutine Hj; [discriminate|eauto].
    + intros j Hj. other_goroutine Hj; [discriminate|eauto].
    + intros j q Hj Hq. exact Hd.
    + intros j result Hj. other_goroutine Hj; [discriminate|eauto].
    + intros _. now left.
  - (* reading kafkaWriter for the result *)
    injection Hstep as <- <-.
    pose proof (Hpast _ _ Hi eq_refl) as Hd.
    split.
    + intros j q Hj Hq. other_goroutine Hj; [subst q; discriminate|eauto].
    + exact Hdone.
    + intros j Hj. other_goroutine Hj; [discriminate|eauto].
    + intros j Hj. other_goroutine Hj; [discriminate|eauto].
    + intros j q Hj Hq. exact Hd.
    + intros j result Hj. other_goroutine Hj; [congruence|eauto].
    + intros _. now left.
  - discriminate.
Qed.

Lemma race_inv_reachable (p : Process) :
  rtc (race_step env) process_start p -> race_inv (fst p) (snd p).
Proof.
  revert p. apply (rtc_ind_r (fun p => race_inv (fst p) (snd p))).
  - apply race_inv_start.
  - intros p q Hrun Hstep IH.
    destruct Hstep as [ts sh|ts sh sh' i pt pt' Hi Hmove]; simpl in *.
    + now apply race_inv_call.
    + eapply race_inv_move; eauto.
Qed.

Lemma run_schedule_reachable (turns : list Turn) (p : Process) :
  rtc (race_step env) p (run_schedule env turns p).
Proof.
  revert p. induction turns as [|[|i] turns IH]; intros [ts sh]; simpl.
  - apply rtc_refl.
  - eapply rtc_l; [apply race_call|apply IH].
  - destruct (ts !! i) as [pt|] eqn:Hi; [|apply IH].
    destruct (goroutine_step env i pt sh) as [[pt' sh']|] eqn:Hstep;
      [|apply IH].
    eapply rtc_l; [eapply race_move; eauto|apply IH].
Qed.

(** C9. In every state the process can reach, however many goroutines
    have called getKafkaWriter and however their steps are interleaved,
    at most one writer has been built; every call that has returned
    has returned that one writer, built by the one run of the initializer,
    so any two calls returned the same writer. *)
Theorem getKafkaWriter_builds_once (p : Process) :
  rtc (race_step env) process_start p ->
  (List.length (built (snd p)) <= 1)%nat
  /\ (forall i result,
       fst p !! i = Some (Returned result) ->
       exists wr, built (snd p) = [wr] /\ result = Some wr
                  /\ shared_kafkaWriter (snd p) = Some wr)
  /\ (forall i j result1 result2,
       fst p !! i = Some (Returned result1) ->
       fst p !! j = Some (Returned result2) ->
       result1 = result2).
Proof.
  intros Hrun. pose proof (race_inv_reachable _ Hrun) as Hinv.
  assert (Hret : forall i result,
            fst p !! i = Some (Returned result) ->
            exists wr, built (snd p) = [wr] /\ result = Some wr
                       /\ shared_kafkaWriter (snd p) = Some wr).
  { intros i result Hi.
    destruct (inv_done _ _ Hinv (inv_past _ _ Hinv _ _ Hi eq_refl))
      as (wr & Hbuilt & Hw).
    exists wr. rewrite (inv_returned _ _ Hinv _ _ Hi). auto. }
  split; [|split; [exact Hret|]].
  - destruct (built (snd p)) as [|wr l] eqn:Hbuilt; [simpl; lia|].
    destruct (inv_pending _ _ Hinv) as [Hd|[i Hi]];
      [rewrite Hbuilt; discriminate| |].
    + destruct (inv_done _ _ Hinv Hd) as (wr' & Hb & _).
      rewrite Hbuilt in Hb. injection Hb as -> ->. simpl. lia.
    + destruct (inv_store _ _ Hinv _ Hi) as (wr' & Hb & _).
      rewrite Hbuilt in Hb. injection Hb as -> ->. simpl. lia.
  - intros i j result1 result2 Hi Hj.
    rewrite (inv_returned _ _ Hinv _ _ Hi), (inv_returned _ _ Hinv _ _ Hj).
    reflexivity.
Qed.

End Race.

End WithRuntime.

Lemma getKafkaWriter_builds_once_witness :
  let p := run_schedule ∅ racing_schedule process_start in
  fst p = [Returned (Some (initKafkaWriter ∅ 0));
           Returned (Some (initKafkaWriter ∅ 0))]
  /\ built (snd p) = [initKafkaWriter ∅ 0]
  /\ (List.length (built (snd p)) <= 1)%nat
  /\ (forall i j result1 result2,
       fst p !! i = Some (Returned result1) ->
       fst p !! j = Some (Returned result2) ->
       result1 = result2).
Proof.
  intros p. split; [reflexivity|]. split; [reflexivity|].
  destruct (getKafkaWriter_builds_once ∅ p
              (run_schedule_reachable ∅ racing_schedule process_start))
    as (Hbuilt & _ & Hsame).
  split; [exact Hbuilt|exact Hsame].
Defined.

Lemma handleEvent_publish_outcome_witness :
  StatusCode
    (fst (@handleEvent sample_runtime movieTopic complete_movie_request
            (sample_world (Some (BrokerError "broker unreachable"))))) = 500
  /\ StatusCode
       (fst (@handleEvent sample_runtime movieTopic complete_movie_request
               (sample_world None))) = 201.
Proof.
  split.
  - destruct (@handleEvent_publish_outcome sample_runtime movieTopic
                complete_movie_request
                (sample_world (Some (BrokerError "broker unreachable")))
                (OfMovie {| MovieID := 1; Title := "Dune"; Action := "viewed";
                            UserID := 42 |})
                eq_refl eq_refl) as (doc & Hdoc & Hfail & _).
    apply (Hfail (BrokerError "broker unreachable")). reflexivity.
  - destruct (@handleEvent_publish_outcome sample_runtime movieTopic
                complete_movie_request (sample_world None)
                (OfMovie {| MovieID := 1; Title := "Dune"; Action := "viewed";
                            UserID := 42 |})
                eq_refl eq_refl) as (doc & Hdoc & _ & Hok).
    destruct (Hok eq_refl) as [Hresp _]. now rewrite Hresp.
Defined.

Lemma consumeTopic_stops_at_first_error_witness :
  consumeTopic_run ∅ "movie-events" sample_incoming 10
  = {| phase := Terminated;
       reader := None;
       reads_made := 2;
       lines := [started_line "movie-events";
                 consumed_line sample_delivery;
                 read_error_line "movie-events"
                   (BrokerError "connection reset")];
       wg_done := true |}.
Proof.
  apply (consumeTopic_stops_at_first_error ∅ "movie-events" sample_incoming
           [sample_delivery] (BrokerError "connection reset")).
  - intros [|[|i]] m Hm;
      [injection Hm as <-; reflexivity | discriminate Hm | discriminate Hm].
  - reflexivity.
  - simpl. lia.
Defined.

Lemma handleEvent_method_not_allowed_witness :
  StatusCode
    (fst (@ServeHTTP sample_runtime
            {| Method := "GET"; Path := "/api/events/movie";
               Body := BadStream "EOF" |}
            (sample_world None))) = 405.
Proof.
  apply (@handleEvent_method_not_allowed sample_runtime
           {| Method := "GET"; Path := "/api/events/movie";
              Body := BadStream "EOF" |}
           (sample_world None)).
  - simpl. left. reflexivity.
  - discriminate.
Defined.

(** ** The handlers, case by case *)

Section Handlers.
Context `{RT : Runtime}.

Lemma ServeHTTP_unknown (r : Request) (w : World) :
  ~ In (Path r) ["/api/events/movie"; "/api/events/user";
                 "/api/events/payment"; "/api/events/health"] ->
  ServeHTTP r w
  = (http_Error (TextLine "404 page not found") StatusNotFound, w).
Proof.
  intros Hpath. unfold ServeHTTP.
  replace (routes !! Path r : option Handler) with (None : option Handler);
    [reflexivity|].
  unfold routes. simpl in Hpath.
  rewrite !lookup_insert_ne by (intros Heq; apply Hpath; rewrite <- Heq; auto).
  reflexivity.
Qed.


(** The empty structure parseEventData starts from, per topic. *)
Lemma parseEventData_cases (topic : string) (r : Request) (w : World) :
  (topic <> movieTopic /\ topic <> userTopic /\ topic <> paymentTopic
   /\ parseEventData topic r w = (inl UnsupportedTypeError, w))
  \/ (exists blank,
        parseEventData topic r w
        = (Decode (Body r) blank, record_effect (BodyDecoded (Body r)) w)
        /\ topic_of blank = topic /\ blank_of blank = blank
        /\ (topic = movieTopic \/ topic = userTopic
            \/ topic = paymentTopic)).
Proof.
  unfold parseEventData.
  destruct (String.eqb_spec topic movieTopic) as [->|Hmovie].
  { right. eexists. split; [reflexivity|]. repeat split; auto. }
  destruct (String.eqb_spec topic userTopic) as [->|Huser].
  { right. eexists. split; [reflexivity|]. repeat split; auto. }
  destruct (String.eqb_spec topic paymentTopic) as [->|Hpayment].
  { right. eexists. split; [reflexivity|]. repeat split; auto. }
  left. auto.
Qed.

(** What handleEvent does once the method is POST and the body decoded. *)
Lemma handleEvent_decoded (topic : string) (r : Request) (w : World)
    (eventData : EventData) (doc : json) :
  Method r = MethodPost ->
  fst (parseEventData topic r w) = inr eventData ->
  json_Marshal eventData = inr doc ->
  let w1 := record_effect (BodyDecoded (Body r)) w in
  let wr := fst (getKafkaWriter w1) in
  let m := {| Topic := topic; Value := doc |} in
  let w2 := record_effect (WriteAttempt wr m (broker_reply w wr m))
              (snd (getKafkaWriter w1)) in
  handleEvent topic r w
  = match broker_reply w wr m with
    | Some err =>
        (http_Error (TextLine "Ошибка обработки события")
                    StatusInternalServerError,
         log_Printf "Ошибка отправки в Kafka: %v" [ArgError err] w2)
    | None => sendSuccessResponse topic eventData w2
    end.
Proof.
  intros Hmethod Hparsed Hdoc w1 wr m w2.
  pose proof (parseEventData_world _ _ _ _ Hparsed) as Hw1.
  unfold handleEvent. rewrite Hmethod.
  replace (String.eqb MethodPost MethodPost) with true by reflexivity.
  cbn [negb].
  destruct (parseEventData topic r w) as [parsed w1'] eqn:Hparse.
  cbn [fst snd] in Hparsed, Hw1. subst parsed w1'.
  unfold sendToKafka. rewrite Hdoc. fold w1.
  assert (Hreply : broker_reply (snd (getKafkaWriter w1)) = broker_reply w).
  { now rewrite getKafkaWriter_broker_reply. }
  subst w2 wr. destruct (getKafkaWriter w1) as [wr' w2'].
  cbn [fst snd] in *. unfold WriteMessages. rewrite Hreply.
  fold m. destruct (broker_reply w wr' m); reflexivity.
Qed.

Lemma handleEvent_undecoded (topic : string) (r : Request) (w : World)
    (err : error) :
  Method r = MethodPost ->
  fst (parseEventData topic r w) = inl err ->
  handleEvent topic r w
  = (http_Error (ErrorLine err) StatusBadRequest,
     snd (parseEventData topic r w)).
Proof.
  intros Hmethod Hparsed. unfold handleEvent. rewrite Hmethod.
  replace (String.eqb MethodPost MethodPost) with true by reflexivity.
  cbn [negb]. destruct (parseEventData topic r w) as [parsed w1].
  cbn [fst snd] in *. now subst parsed.
Qed.



Lemma store_int_Itoa (n old : Z) :
  in_int_range n = true -> store_int (JNumber (strconv_Itoa n)) old = inr n.
Proof.
  intros Hn. unfold store_int.
  change (strconv_ParseInt (strconv_Itoa n))
    with (strconv_Atoi (strconv_Itoa n)).
  now rewrite GoFacts.Atoi_Itoa.
Qed.

Lemma store_time_Marshal (t old : Time) :
  time_UnmarshalJSON (time_MarshalJSON t) = Some t ->
  store_time (JString (time_MarshalJSON t)) old = inr t.
Proof. intros Ht. unfold store_time. now rewrite Ht. Qed.

Lemma store_float_Marshal (x old : Float64) :
  strconv_ParseFloat (float_MarshalJSON x) = Some x ->
  store_float (JNumber (float_MarshalJSON x)) old = inr x.
Proof. intros Hx. unfold store_float. now rewrite Hx. Qed.

Ltac pick_field :=
  match goal with
  | |- context [find_field ?names ?key] =>
      let v := eval vm_compute in (find_field names key) in
      change (find_field names key) with v; cbv iota beta
  end.

Ltac eval_eqb :=
  match goal with
  | |- context [String.eqb ?a ?b] =>
      let v := eval vm_compute in (String.eqb a b) in
      change (String.eqb a b) with v; cbv iota
  end.

Ltac store_fields :=
  repeat first
    [ pick_field
    | eval_eqb
    | rewrite store_int_Itoa by assumption
    | rewrite store_time_Marshal by assumption
    | rewrite store_float_Marshal by assumption
    | progress cbn [with_field store_string store_members
                    MovieID Title Action UserID
                    UE_UserID Username UE_Action UE_Timestamp
                    PaymentID PE_UserID Amount Status PE_Timestamp] ].

(** The decoder reads back what [json.Marshal] writes. *)
Lemma Decode_of_Marshal (eventData : EventData) :
  representable eventData ->
  exists doc,
    json_Marshal eventData = inr doc
    /\ Decode (FirstValue doc) (blank_of eventData) = inr eventData.
Proof.
  destruct eventData as [e|e|e]; destruct e;
    cbn [representable MovieID UserID UE_UserID UE_Timestamp PaymentID
         PE_UserID Amount PE_Timestamp].
  - intros [Hid Huser]. eexists. split; [reflexivity|].
    cbn [Decode blank_of unmarshal_struct].
    unfold MovieEvent_store. store_fields. reflexivity.
  - intros [Hid Htime]. eexists. split; [reflexivity|].
    cbn [Decode blank_of unmarshal_struct].
    unfold UserEvent_store. store_fields. reflexivity.
  - intros (Hid & Huser & Hamount & Htime). eexists. split; [reflexivity|].
    cbn [Decode blank_of unmarshal_struct].
    unfold PaymentEvent_store. store_fields. reflexivity.
Qed.

Lemma routes_endpoint (eventData : EventData) :
  (routes !! endpoint_of eventData : option Handler)
  = Some (handleEvent (topic_of eventData)).
Proof.
  destruct eventData; cbn [endpoint_of topic_of];
    [apply routes_movie|apply routes_user|apply routes_payment].
Qed.

Lemma parseEventData_topic_of (eventData : EventData) (r : Request)
    (w : World) :
  parseEventData (topic_of eventData) r w
  = (Decode (Body r) (blank_of eventData),
     record_effect (BodyDecoded (Body r)) w).
Proof. destruct eventData; reflexivity. Qed.


(** *** One writer for the whole run *)

Lemma writers_made_app (h1 h2 : list effect) :
  writers_made (h1 ++ h2) = (writers_made h1 ++ writers_made h2)%list.
Proof.
  induction h1 as [|e h1 IH]; [reflexivity|].
  destruct e; simpl; rewrite IH; reflexivity.
Qed.

Lemma writers_used_app (h1 h2 : list effect) :
  writers_used (h1 ++ h2) = (writers_used h1 ++ writers_used h2)%list.
Proof.
  induction h1 as [|e h1 IH]; [reflexivity|].
  destruct e; simpl; rewrite IH; reflexivity.
Qed.

Lemma one_writer_quiet (env : gmap string string) (e : effect) (w : World) :
  writers_made [e] = [] -> writers_used [e] = [] ->
  one_writer env w -> one_writer env (record_effect e w).
Proof.
  intros Hmade Hused [Henv Hw]. split; [exact Henv|].
  cbn [record_effect kafkaWriter writers_built history].
  rewrite writers_made_app, writers_used_app, Hmade, Hused, !app_nil_r.
  exact Hw.
Qed.

Lemma one_writer_get (env : gmap string string) (w : World) :
  one_writer env w ->
  one_writer env (snd (getKafkaWriter w))
  /\ kafkaWriter (snd (getKafkaWriter w)) = Some (fst (getKafkaWriter w)).
Proof.
  intros [Henv Hw]. unfold getKafkaWriter.
  destruct (kafkaWriter w) as [wr|] eqn:Hwr; cbn [fst snd].
  - split; [|exact Hwr]. split; [exact Henv|]. now rewrite Hwr.
  - destruct Hw as (Hbuilt & Hmade & Hused). split; [|reflexivity].
    split; [exact Henv|].
    cbn [record_effect kafkaWriter history].
    rewrite writers_made_app, writers_used_app, Hmade, Hused, Hbuilt, Henv.
    simpl. auto.
Qed.

Lemma one_writer_attempt (env : gmap string string) (w : World)
    (wr : Writer) (m : Message) (result : option error) :
  one_writer env w -> kafkaWriter w = Some wr ->
  one_writer env (record_effect (WriteAttempt wr m result) w).
Proof.
  intros [Henv Hw] Hwr. split; [exact Henv|].
  cbn [record_effect kafkaWriter history]. rewrite Hwr in *.
  destruct Hw as (Hinit & Hmade & Hused).
  rewrite writers_made_app, writers_used_app. simpl. rewrite app_nil_r.
  split; [exact Hinit|]. split; [exact Hmade|].
  apply Forall_app. split; [exact Hused|]. now constructor.
Qed.

Lemma one_writer_handleEvent (env : gmap string string) (topic : string)
    (r : Request) (w : World) :
  one_writer env w -> one_writer env (snd (handleEvent topic r w)).
Proof.
  intros Hw.
  destruct (String.eqb_spec (Method r) MethodPost) as [Hmethod|Hmethod].
  2:{ now rewrite (handleEvent_not_post _ _ _ Hmethod). }
  destruct (fst (parseEventData topic r w)) as [err|eventData] eqn:Hparsed.
  { rewrite (handleEvent_undecoded _ _ _ _ Hmethod Hparsed). cbn [snd].
    destruct (parseEventData_cases topic r w)
      as [(_ & _ & _ & ->)|(blank & -> & _)]; cbn [snd]; [exact Hw|].
    now apply one_writer_quiet. }
  destruct (json_Marshal_total eventData) as [doc Hdoc].
  pose proof (handleEvent_decoded _ _ _ _ _ Hmethod Hparsed Hdoc) as Hrun.
  cbv zeta in Hrun. rewrite Hrun. clear Hrun.
  assert (Hw1 : one_writer env (record_effect (BodyDecoded (Body r)) w))
    by now apply one_writer_quiet.
  destruct (one_writer_get _ _ Hw1) as [Hw2 Hwr].
  pose proof (one_writer_attempt _ _ _
                {| Topic := topic; Value := doc |}
                (broker_reply w
                   (fst (getKafkaWriter
                           (record_effect (BodyDecoded (Body r)) w)))
                   {| Topic := topic; Value := doc |}) Hw2 Hwr) as Hw3.
  destruct (broker_reply w _ _); cbn [snd sendSuccessResponse];
    unfold log_Printf; now apply one_writer_quiet.
Qed.

Lemma one_writer_ServeHTTP (env : gmap string string) (r : Request)
    (w : World) :
  one_writer env w -> one_writer env (snd (ServeHTTP r w)).
Proof.
  intros Hw.
  destruct (decide (Path r = "/api/events/movie")) as [Hp|Hmovie].
  { unfold ServeHTTP. rewrite Hp, routes_movie.
    now apply one_writer_handleEvent. }
  destruct (decide (Path r = "/api/events/user")) as [Hp|Huser].
  { unfold ServeHTTP. rewrite Hp, routes_user.
    now apply one_writer_handleEvent. }
  destruct (decide (Path r = "/api/events/payment")) as [Hp|Hpayment].
  { unfold ServeHTTP. rewrite Hp, routes_payment.
    now apply one_writer_handleEvent. }
  destruct (decide (Path r = "/api/events/health")) as [Hp|Hhealth].
  { unfold ServeHTTP. rewrite Hp, routes_health. exact Hw. }
  rewrite ServeHTTP_unknown; [exact Hw|].
  simpl. intros [?|[?|[?|[?|[]]]]]; congruence.
Qed.

(** X13. Whatever requests the process serves, one after the other, it builds
    its writer at most once, at the first call that needs it, and every
    call of [WriteMessages] of the whole run goes through that one writer.
    This holds from a process that has built none yet and from the one
    [main] starts serving with. *)
Theorem serve_requests_one_writer (env : gmap string string) :
  (forall now reply, one_writer env (fresh_world env now reply))
  /\ (forall now reply, one_writer env (started_world env now reply))
  /\ (forall rs w,
       one_writer env w -> one_writer env (snd (serve_requests rs w))).
Proof.
  assert (Hfresh : forall now reply,
            one_writer env (fresh_world env now reply)).
  { intros now reply. split; [reflexivity|]. simpl. auto. }
  split; [exact Hfresh|]. split.
  { intros now reply. apply one_writer_get, Hfresh. }
  intros rs. induction rs as [|r rs IH]; intros w Hw; [exact Hw|].
  cbn [serve_requests].
  pose proof (one_writer_ServeHTTP env r w Hw) as Hw1.
  destruct (ServeHTTP r w) as [response w1]. cbn [snd] in Hw1.
  specialize (IH w1 Hw1). destruct (serve_requests rs w1) as [rest w2].
  exact IH.
Qed.

End Handlers.

(** ** The list of brokers *)

Section Brokers.

Lemma rev_app_append (s1 s2 s3 : string) :
  (String.rev_app s1 s2 ++ s3)%string = String.rev_app s1 (s2 ++ s3)%string.
Proof.
  revert s2. induction s1 as [|c s1 IH]; intros s2; [reflexivity|].
  simpl. apply IH.
Qed.

Lemma split_from_cons (sep : ascii) (cur s : string) :
  exists piece pieces, split_from sep cur s = piece :: pieces.
Proof.
  revert cur. induction s as [|c s IH]; intros cur; simpl; [eauto|].
  destruct (Ascii.eqb c sep); eauto.
Qed.

Lemma Join_split_from (sep : ascii) (cur s : string) :
  strings_Join (split_from sep cur s) (String sep "") = String.rev_app cur s.
Proof.
  unfold strings_Join. revert cur.
  induction s as [|c s IH]; intros cur; [reflexivity|].
  cbn [split_from]. destruct (Ascii.eqb_spec c sep) as [->|Hc].
  - destruct (split_from_cons sep "" s) as (piece & pieces & Hs).
    specialize (IH ""%string). rewrite Hs in *.
    change ((String.rev cur ++ String sep ""
             ++ String.concat (String sep "") (piece :: pieces))%string
            = String.rev_app cur (String sep s)).
    rewrite IH. unfold String.rev.
    rewrite rev_app_append. reflexivity.
  - apply IH.
Qed.

Lemma In_rev_app (c : ascii) (s1 s2 : string) :
  In c (list_ascii_of_string (String.rev_app s1 s2))
  <-> In c (list_ascii_of_string s1) \/ In c (list_ascii_of_string s2).
Proof.
  revert s2. induction s1 as [|a s1 IH]; intros s2; simpl; [tauto|].
  rewrite IH. simpl. tauto.
Qed.

Lemma split_from_pieces (sep : ascii) (cur s : string) :
  ~ In sep (list_ascii_of_string cur) ->
  Forall (fun piece => ~ In sep (list_ascii_of_string piece))
         (split_from sep cur s).
Proof.
  revert cur. induction s as [|c s IH]; intros cur Hcur; cbn [split_from].
  - constructor; [|constructor]. unfold String.rev.
    rewrite In_rev_app. simpl. tauto.
  - destruct (Ascii.eqb_spec c sep) as [->|Hc].
    + constructor; [|apply IH; simpl; tauto]. unfold String.rev.
      rewrite In_rev_app. simpl. tauto.
    + apply IH. simpl. intros [?|?]; [congruence|contradiction].
Qed.

Lemma split_from_length (sep : ascii) (cur s : string) :
  List.length (split_from sep cur s)
  = S (count_occ ascii_dec (list_ascii_of_string s) sep).
Proof.
  revert cur. induction s as [|c s IH]; intros cur; [reflexivity|].
  cbn [split_from list_ascii_of_string count_occ].
  destruct (Ascii.eqb_spec c sep) as [->|Hc].
  - destruct (ascii_dec sep sep); [|contradiction]. simpl. now rewrite IH.
  - destruct (ascii_dec c sep); [contradiction|]. apply IH.
Qed.


End Brokers.

(** ** The life of a consumer *)

Section ConsumerLife.
Variable env : gmap string string.
Variable topic : string.
Variable incoming : nat -> error + Delivery.

(** Where a consumer can be after [n] steps, with all that goes with it. *)
Lemma consumeTopic_shape (n : nat) :
  let c := consumeTopic_run env topic incoming n in
  match n with
  | O => c = consumer_start
  | S m =>
      List.length (lines c) = S (reads_made c)
      /\ ((phase c = Running /\ reader c = Some (reader_config env topic)
           /\ wg_done c = false /\ reads_made c = m
           /\ forall i, (i < m)%nat -> exists d, incoming i = inr d)
          \/ (phase c = Terminated /\ reader c = None /\ wg_done c = true
              /\ exists k err,
                   reads_made c = S k /\ (k < m)%nat
                   /\ incoming k = inl err
                   /\ forall i, (i < k)%nat -> exists d, incoming i = inr d))
  end.
Proof.
  induction n as [|n IH]; [reflexivity|].
  cbv zeta in *. rewrite consumeTopic_run_S.
  destruct n as [|m].
  - rewrite IH. simpl. split; [reflexivity|]. left.
    repeat split; auto. intros i Hi. lia.
  - destruct IH as [Hlen [(Hphase & Hreader & Hwg & Hreads & Hok)
                         |(Hphase & Hreader & Hwg & k & err & Hk)]].
    + unfold consumeTopic_step. rewrite Hphase, Hreads.
      destruct (incoming m) as [err|d] eqn:Hm;
        cbn [lines reads_made phase reader wg_done];
        rewrite length_app, Hlen, Hreads; (split; [simpl; lia|]).
      * right. repeat split; auto. exists m, err. repeat split; auto.
      * left. repeat split; auto. intros i Hi.
        destruct (decide (i = m)) as [->|Hne]; [eauto|apply Hok; lia].
    + unfold consumeTopic_step. rewrite Hphase. split; [exact Hlen|].
      right. repeat split; auto. destruct Hk as (Hr & Hlt & Herr & Hok).
      exists k, err. repeat split; auto.
Qed.

Lemma consumeTopic_step_extends (c : Consumer) :
  exists more,
    lines (consumeTopic_step env topic incoming c) = (lines c ++ more)%list
    /\ (reads_made c
        <= reads_made (consumeTopic_step env topic incoming c))%nat.
Proof.
  unfold consumeTopic_step. destruct (phase c).
  - eexists. split; [reflexivity|]. simpl. lia.
  - destruct (incoming (reads_made c)); eexists;
      (split; [reflexivity|simpl; lia]).
  - exists []. rewrite app_nil_r. split; [reflexivity|lia].
Qed.

(** X15. A consumer stops only because a read failed: once started, its reader
    is open exactly while it is in its loop and the wait group is told
    exactly when it has left it; it has logged one line more than it has
    made reads; and if it is terminated, its last read is the first one
    that failed. Its log only ever grows. *)
Theorem consumeTopic_stops_only_on_error (n : nat) :
  let c := consumeTopic_run env topic incoming (S n) in
  (phase c = Running \/ phase c = Terminated)
  /\ (reader c = Some (reader_config env topic) <-> phase c = Running)
  /\ (reader c = None <-> phase c = Terminated)
  /\ (wg_done c = true <-> phase c = Terminated)
  /\ List.length (lines c) = S (reads_made c)
  /\ (phase c = Terminated ->
      exists k err,
        reads_made c = S k /\ incoming k = inl err
        /\ forall i, (i < k)%nat -> exists d, incoming i = inr d)
  /\ (forall k,
      exists more,
        lines (consumeTopic_run env topic incoming (S n + k))
        = (lines c ++ more)%list).
Proof.
  intros c. pose proof (consumeTopic_shape (S n)) as Hshape.
  cbv zeta in Hshape. fold c in Hshape.
  destruct Hshape as [Hlen [(Hphase & Hreader & Hwg & Hreads & Hok)
                            |(Hphase & Hreader & Hwg & k & err & Hk)]].
  - rewrite Hphase, Hreader, Hwg.
    split; [now left|]. split; [tauto|]. split; [split; discriminate|].
    split; [split; discriminate|]. split; [exact Hlen|].
    split; [discriminate|].
    intros j. induction j as [|j [more IH]].
    + exists []. now rewrite Nat.add_0_r, app_nil_r.
    + rewrite Nat.add_succ_r, consumeTopic_run_S.
      destruct (consumeTopic_step_extends
                  (consumeTopic_run env topic incoming (S n + j)))
        as (more' & -> & _).
      rewrite IH, <- app_assoc. eauto.
  - rewrite Hphase, Hreader, Hwg.
    split; [now right|]. split; [split; discriminate|]. split; [tauto|].
    split; [tauto|]. split; [exact Hlen|].
    split.
    { intros _. destruct Hk as (Hr & _ & Herr & Hok). eauto. }
    intros j. induction j as [|j [more IH]].
    + exists []. now rewrite Nat.add_0_r, app_nil_r.
    + rewrite Nat.add_succ_r, consumeTopic_run_S.
      destruct (consumeTopic_step_extends
                  (consumeTopic_run env topic incoming (S n + j)))
        as (more' & -> & _).
      rewrite IH, <- app_assoc. eauto.
Qed.

(** X16. As long as the broker delivers, the consumer stays in its loop for
    ever: after any number of turns it is running with its reader open,
    and it has logged the messages in the order they were delivered. *)
Theorem consumeTopic_runs_while_reads_succeed (deliveries : nat -> Delivery) :
  (forall i, incoming i = inr (deliveries i)) ->
  forall n,
    consumeTopic_run env topic incoming (S n)
    = {| phase := Running;
         reader := Some (reader_config env topic);
         reads_made := n;
         lines := started_line topic
                  :: map (fun i => consumed_line (deliveries i)) (seq 0 n);
         wg_done := false |}.
Proof.
  intros Hok n.
  rewrite (consumeTopic_running env topic incoming
             (map deliveries (seq 0 n)) n).
  - rewrite firstn_all2 by (rewrite length_map, length_seq; lia).
    now rewrite map_map.
  - intros i m Hi. rewrite list_lookup_fmap in Hi.
    destruct (seq 0 n !! i) as [j|] eqn:Hj; [|discriminate].
    apply lookup_seq in Hj as [-> _]. simpl in Hi. injection Hi as <-.
    apply Hok.
  - rewrite length_map, length_seq. lia.
Qed.

End ConsumerLife.

(** ** The race through getKafkaWriter: progress *)

Section RaceLife.
Variable env : gmap string string.

(** Whoever is recorded as holding the mutex of [once] stands at a point
    between its lock and its unlock. *)
Lemma race_holder_reachable (p : Process) :
  rtc (race_step env) process_start p ->
  forall h, once_m (snd p) = Some h ->
  exists pt, fst p !! h = Some pt /\ holds_mutex pt = true.
Proof.
  revert p. apply (rtc_ind_r (fun p => forall h, once_m (snd p) = Some h ->
    exists pt, fst p !! h = Some pt /\ holds_mutex pt = true)).
  - intros h. discriminate.
  - intros p q _ Hstep IH.
    destruct Hstep as [ts sh|ts sh sh' i pt pt' Hi Hmove]; cbn [fst snd] in *.
    + intros h Hh. destruct (IH h Hh) as (pt & Hpt & Hholds).
      exists pt. split; [now apply lookup_app_l_Some|exact Hholds].
    + pose proof (lookup_lt_Some _ _ _ Hi) as Hlt.
      intros h Hh.
      destruct pt; simpl in Hmove;
        try (destruct (once_m sh) eqn:Hfree; [discriminate|]);
        try discriminate;
        injection Hmove as <- <-; simpl in Hh;
        try discriminate.
      all: try (injection Hh as <-; exists AtSlowLoad;
                split; [now apply list_lookup_insert_eq|reflexivity]).
      all: destruct (IH h Hh) as (pt0 & Hpt0 & Hholds);
        destruct (decide (i = h)) as [->|Hne];
        [rewrite Hi in Hpt0; injection Hpt0 as <-;
         first
           [discriminate Hholds
           |eexists; split; [now apply list_lookup_insert_eq|];
            try destruct (once_done sh); reflexivity]
        |exists pt0; split; [now rewrite list_lookup_insert_ne|exact Hholds]].
Qed.

(** The goroutine that holds the mutex is never held up. *)
Lemma holder_can_move (i : nat) (pt : Point) (sh : Shared) :
  holds_mutex pt = true -> is_Some (goroutine_step env i pt sh).
Proof. destruct pt; simpl; intros H; try discriminate H; eauto. Qed.

(** X17. getKafkaWriter cannot deadlock: in every state the process can
    reach, as long as some call has not returned, some goroutine is able
    to take its next step (the one waiting for the mutex may not be, but
    then the holder is). *)
Theorem getKafkaWriter_never_stuck (p : Process) :
  rtc (race_step env) process_start p ->
  (exists i pt, fst p !! i = Some pt /\ has_returned pt = false) ->
  exists i pt pt' sh',
    fst p !! i = Some pt
    /\ goroutine_step env i pt (snd p) = Some (pt', sh')
    /\ race_step env p (<[i := pt']> (fst p), sh').
Proof.
  intros Hrun (i & pt & Hi & Hpending). destruct p as [ts sh].
  cbn [fst snd] in *.
  assert (Hgo : forall j q, ts !! j = Some q ->
            is_Some (goroutine_step env j q sh) ->
            exists i pt pt' sh',
              ts !! i = Some pt
              /\ goroutine_step env i pt sh = Some (pt', sh')
              /\ race_step env (ts, sh) (<[i := pt']> ts, sh')).
  { intros j q Hj [[q' sh'] Hstep]. exists j, q, q', sh'.
    split; [exact Hj|]. split; [exact Hstep|]. now apply race_move with q. }
  destruct (once_m sh) as [h|] eqn:Hm.
  - destruct (race_holder_reachable _ Hrun h Hm) as (q & Hq & Hholds).
    apply (Hgo h q Hq). now apply holder_can_move.
  - apply (Hgo i pt Hi).
    destruct pt; simpl; try rewrite Hm; try discriminate Hpending; eauto.
Qed.

Lemma work_left_insert (ts : list Point) (i : nat) (pt pt' : Point) :
  ts !! i = Some pt ->
  (work_left (<[i := pt']> ts) + steps_left pt
   = work_left ts + steps_left pt')%nat.
Proof.
  revert i. induction ts as [|q ts IH]; intros [|i] Hi; try discriminate.
  - injection Hi as ->. simpl. lia.
  - simpl in *. specialize (IH i Hi). lia.
Qed.

Lemma goroutine_step_decreases (i : nat) (pt pt' : Point) (sh sh' : Shared) :
  goroutine_step env i pt sh = Some (pt', sh') ->
  (steps_left pt' < steps_left pt)%nat.
Proof.
  destruct pt; simpl; try discriminate.
  - intros [= <- _]. destruct (once_done sh); simpl; lia.
  - destruct (once_m sh); [discriminate|]. intros [= <- _]. simpl. lia.
  - intros [= <- _]. destruct (once_done sh); simpl; lia.
  - intros [= <- _]. simpl. lia.
  - intros [= <- _]. simpl. lia.
  - intros [= <- _]. simpl. lia.
  - intros [= <- _]. simpl. lia.
Qed.

(** X18. A call of getKafkaWriter returns after at most seven steps of its
    goroutine: every step a goroutine takes lowers the work left in the
    process, which is at most seven steps per call and is nothing exactly
    when every call has returned. *)
Theorem getKafkaWriter_bounded_work
    (ts : list Point) (sh sh' : Shared) (i : nat) (pt pt' : Point) :
  (ts !! i = Some pt ->
   goroutine_step env i pt sh = Some (pt', sh') ->
   work_left (<[i := pt']> ts) < work_left ts)%nat
  /\ (work_left ts <= 7 * List.length ts)%nat
  /\ (work_left ts = 0%nat <-> Forall (fun q => has_returned q = true) ts).
Proof.
  split; [|split].
  - intros Hi Hstep. pose proof (work_left_insert ts i pt pt' Hi).
    pose proof (goroutine_step_decreases _ _ _ _ _ Hstep). lia.
  - induction ts as [|q l IH]; simpl; [lia|].
    assert (steps_left q <= 7)%nat by (destruct q; simpl; lia). lia.
  - induction ts as [|q l IH]; simpl.
    + split; [constructor|reflexivity].
    + split.
      * intros Hzero.
        constructor; [destruct q; simpl in *; try lia; reflexivity|].
        apply IH. lia.
      * intros Hall. inversion Hall as [|? ? Hq Hl]; subst.
        destruct q; try discriminate Hq. simpl. apply IH, Hl.
Qed.

(** The writer in [kafkaWriter] is the last one built. *)
Lemma race_writer_is_last_built (p : Process) :
  rtc (race_step env) process_start p ->
  shared_kafkaWriter (snd p) = last (built (snd p)).
Proof.
  revert p. apply (rtc_ind_r (fun p =>
    shared_kafkaWriter (snd p) = last (built (snd p)))).
  - reflexivity.
  - intros p q _ Hstep IH.
    destruct Hstep as [ts sh|ts sh sh' i pt pt' Hi Hmove]; cbn [fst snd] in *;
      [exact IH|].
    destruct pt; simpl in Hmove;
      try (destruct (once_m sh); [discriminate|]);
      try discriminate; injection Hmove as <- <-; simpl; try exact IH.
    now rewrite last_snoc.
Qed.

(** X19. Once a writer is in [kafkaWriter] it stays there: whatever the
    goroutines do from then on, and whatever new calls arrive, the
    variable keeps that writer, [done] stays set once set, and no other
    writer is built. *)
Theorem kafkaWriter_never_replaced (p q : Process) (wr : Writer) :
  rtc (race_step env) process_start p ->
  rtc (race_step env) p q ->
  shared_kafkaWriter (snd p) = Some wr ->
  shared_kafkaWriter (snd q) = Some wr
  /\ built (snd q) = built (snd p)
  /\ (once_done (snd p) = true -> once_done (snd q) = true).
Proof.
  intros Hp Hpq Hwr. revert q Hpq.
  apply (rtc_ind_r (fun q =>
    shared_kafkaWriter (snd q) = Some wr
    /\ built (snd q) = built (snd p)
    /\ (once_done (snd p) = true -> once_done (snd q) = true))).
  - auto.
  - intros q q' Hpq Hstep (Hq & Hbuilt & Hdone).
    assert (Hreach : rtc (race_step env) process_start q)
      by (etrans; eassumption).
    pose proof (race_inv_reachable env q Hreach) as Hinv.
    pose proof (race_writer_is_last_built q Hreach) as Hlast.
    destruct Hstep as [ts sh|ts sh sh' i pt pt' Hi Hmove]; cbn [fst snd] in *;
      [auto|].
    destruct pt; simpl in Hmove;
      try (destruct (once_m sh); [discriminate|]);
      try discriminate; injection Hmove as <- <-; simpl; auto.
    destruct (inv_init _ _ Hinv _ Hi) as [_ Hempty].
    rewrite Hempty in Hlast. simpl in Hlast. congruence.
Qed.

End RaceLife.

(** ** What is logged for an accepted event *)

Section Logging.
Context `{RT : Runtime}.

(** X11. When handleEvent answers 201, what it did is, in this order: hand the
    body to the decoder, build the writer if the process had none, write
    one message on the topic, and only then log the topic with the very
    document it has just written. The writer used is the one the process
    holds afterwards. *)
Theorem handleEvent_logs_what_it_published
    (topic : string) (r : Request) (w : World) :
  StatusCode (fst (handleEvent topic r w)) = 201 ->
  exists wr doc early,
    history (snd (handleEvent topic r w))
    = (history w ++ early
       ++ [WriteAttempt wr {| Topic := topic; Value := doc |} None;
           Logged ("Сообщение отправлено в топик %s: %s",
                   [ArgString topic; ArgBytes doc])])%list
    /\ (early = [BodyDecoded (Body r)]
        \/ early = [BodyDecoded (Body r); WriterBuilt wr])
    /\ kafkaWriter (snd (handleEvent topic r w)) = Some wr.
Proof.
  destruct (String.eqb_spec (Method r) MethodPost) as [Hmethod|Hmethod].
  2:{ rewrite (handleEvent_not_post _ _ _ Hmethod). discriminate. }
  destruct (fst (parseEventData topic r w)) as [err|eventData] eqn:Hparsed.
  { rewrite (handleEvent_undecoded _ _ _ _ Hmethod Hparsed). discriminate. }
  destruct (json_Marshal_total eventData) as [doc Hdoc].
  pose proof (handleEvent_decoded _ _ _ _ _ Hmethod Hparsed Hdoc) as Hrun.
  cbv zeta in Hrun. rewrite Hrun. clear Hrun.
  set (w1 := record_effect (BodyDecoded (Body r)) w).
  destruct (broker_reply w _ _) as [err|]; [discriminate|].
  intros _. unfold sendSuccessResponse. rewrite Hdoc.
  cbn [snd log_Printf record_effect history kafkaWriter].
  exists (fst (getKafkaWriter w1)), doc.
  unfold getKafkaWriter. destruct (kafkaWriter w1) as [wr|] eqn:Hwr;
    cbn [fst snd record_effect history kafkaWriter].
  - exists [BodyDecoded (Body r)]. subst w1. cbn [record_effect history].
    rewrite <- !app_assoc. auto.
  - eexists [BodyDecoded (Body r); WriterBuilt _]. subst w1.
    cbn [record_effect history environ writers_built].
    rewrite <- !app_assoc. auto.
Qed.

End Logging.

Lemma handleEvent_logs_what_it_published_witness :
  exists wr doc early,
    history (snd (@handleEvent sample_runtime movieTopic
                    complete_movie_request (sample_world None)))
    = (history (sample_world None) ++ early
       ++ [WriteAttempt wr {| Topic := movieTopic; Value := doc |} None;
           Logged ("Сообщение отправлено в топик %s: %s",
                   [ArgString movieTopic; ArgBytes doc])])%list.
Proof.
  destruct (@handleEvent_logs_what_it_published sample_runtime movieTopic
              complete_movie_request (sample_world None) eq_refl)
    as (wr & doc & early & Hhistory & _).
  exists wr, doc, early. exact Hhistory.
Defined.




Lemma serve_requests_one_writer_witness :
  @one_writer sample_runtime ∅
    (snd (@serve_requests sample_runtime
            [title_only_request; complete_movie_request]
            (sample_world None))).
Proof.
  apply (@serve_requests_one_writer sample_runtime ∅).
  apply (@serve_requests_one_writer sample_runtime ∅).
Defined.

Lemma consumeTopic_runs_while_reads_succeed_witness :
  phase (consumeTopic_run ∅ "movie-events" (fun _ => inr sample_delivery) 100)
  = Running.
Proof.
  rewrite (consumeTopic_runs_while_reads_succeed ∅ "movie-events"
             (fun _ => inr sample_delivery) (fun _ => sample_delivery)).
  - reflexivity.
  - intros i. reflexivity.
Defined.

Lemma getKafkaWriter_never_stuck_witness :
  let p := run_schedule ∅ building_schedule process_start in
  fst p !! 1%nat = Some AtLock
  /\ goroutine_step ∅ 1 AtLock (snd p) = None
  /\ exists i pt pt' sh',
       fst p !! i = Some pt
       /\ goroutine_step ∅ i pt (snd p) = Some (pt', sh')
       /\ race_step ∅ p (<[i := pt']> (fst p), sh').
Proof.
  intros p. split; [reflexivity|]. split; [reflexivity|].
  apply (getKafkaWriter_never_stuck ∅ p
           (run_schedule_reachable ∅ building_schedule process_start)).
  exists 1%nat, AtLock. split; reflexivity.
Defined.

Lemma kafkaWriter_never_replaced_witness :
  let p := run_schedule ∅ building_schedule process_start in
  let q := run_schedule ∅ finishing_schedule p in
  shared_kafkaWriter (snd q) = Some (initKafkaWriter ∅ 0)
  /\ built (snd q) = built (snd p).
Proof.
  intros p q.
  destruct (kafkaWriter_never_replaced ∅ p q (initKafkaWriter ∅ 0)
              (run_schedule_reachable ∅ building_schedule process_start)
              (run_schedule_reachable ∅ finishing_schedule p)
              eq_refl) as (Hwr & Hbuilt & _).
  split; assumption.
Defined.

End EventsProofs.
